(** * ncups: printer listing, device discovery and driver matching

    A shallow embedding of [lib/manager.js] (class [Manager]) and of the
    JavaScript built-ins and library calls it relies on, followed by the
    properties of the listing, discovery and driver-matching code.

    Conventions of the embedding:
    - a JavaScript string is the list of its UTF-16 code units ([list N]);
    - a call that can throw returns a [result]: [Ok v] or [Throw e];
    - [undefined] where the source can produce it is [None] of an [option];
    - the outcome of [await exec(cmd)] is an input of each operation. *)

From Stdlib Require Import NArith ZArith Lia Ascii String.
From stdpp Require Import base option list gmap.

Set Default Proof Using "Type".

(** ** JavaScript strings *)

Abbreviation jsstring := (list N) (only parsing).

Definition chr (a : ascii) : N := N_of_ascii a.
Arguments chr a%_char.

(** [js "text"] is the JavaScript string with the same (ASCII) characters. *)
Definition js (s : string) : jsstring := map N_of_ascii (list_ascii_of_string s).
Arguments js s%_string.

(** ** Exceptions *)

Inductive error : Set :=
  | TypeError   (* property access on undefined *)
  | URIError    (* decodeURIComponent on a malformed escape *)
  | ExecError.  (* the promise returned by exec was rejected *)

Inductive result (A : Type) : Type :=
  | Ok (a : A)
  | Throw (e : error).
Arguments Ok {A} a.
Arguments Throw {A} e.

#[global] Instance result_ret : MRet result := fun A a => Ok a.

#[global] Instance result_bind : MBind result := fun A B f r =>
  match r with
  | Ok a => f a
  | Throw e => Throw e
  end.

#[global] Instance result_fmap : FMap result := fun A B f r =>
  match r with
  | Ok a => Ok (f a)
  | Throw e => Throw e
  end.

(** [xs.forEach(x => ...)] updating a state, where the body may throw: left
    to right, the first exception aborts the traversal.  ([_.map] with a
    throwing callback is [mapM].) *)
Fixpoint foldM {A S} (f : S → A → result S) (s : S) (xs : list A) : result S :=
  match xs with
  | [] => Ok s
  | x :: xs' => s' ← f s x; foldM f s' xs'
  end.

(** Reading a property of a value that may be [undefined]. *)
Definition defined {A} (o : option A) : result A :=
  match o with
  | Some a => Ok a
  | None => Throw TypeError
  end.

(** ** String built-ins *)

(** [LineTerminator] of the language: LF, CR, LS, PS. *)
Definition is_line_terminator (c : N) : bool :=
  ((c =? 10) || (c =? 13) || (c =? 8232) || (c =? 8233))%N.

(** [WhiteSpace] of the language (TAB, VT, FF, SP, NBSP, ZWNBSP and the
    space separators) together with the line terminators: what
    [String.prototype.trim] and the class [\s] remove. *)
Definition is_trim_space (c : N) : bool :=
  ((c =? 9) || (c =? 11) || (c =? 12) || (c =? 32) || (c =? 160) || (c =? 65279)
   || (c =? 5760) || ((8192 <=? c) && (c <=? 8202)) || (c =? 8239) || (c =? 8287)
   || (c =? 12288))%N
  || is_line_terminator c.

Fixpoint trim_start (s : jsstring) : jsstring :=
  match s with
  | [] => []
  | c :: s' => if is_trim_space c then trim_start s' else s
  end.

(** [s.trim()], also what lodash's [_.trim(s)] computes on a string. *)
Definition trim (s : jsstring) : jsstring :=
  reverse (trim_start (reverse (trim_start s))).

(** [s.split(sep)] for a one-character string [sep]: never empty. *)
Fixpoint split (sep : N) (s : jsstring) : list jsstring :=
  match s with
  | [] => [[]]
  | c :: s' =>
      if (c =? sep)%N then [] :: split sep s'
      else match split sep s' with
           | p :: ps => (c :: p) :: ps
           | [] => [[c]]
           end
  end.

(** [parts.join(sep)] for a one-character string [sep]. *)
Fixpoint join (sep : N) (parts : list jsstring) : jsstring :=
  match parts with
  | [] => []
  | [p] => p
  | p :: ps => p ++ sep :: join sep ps
  end.

(** [s.split(/\r\n|[\n\r\u0085\u2028\u2029]/g)]: the separators are CR LF
    (tried first, one separator), LF, CR, NEL, LS and PS; empty pieces are
    kept. *)
Definition is_newline (c : N) : bool :=
  ((c =? 10) || (c =? 13) || (c =? 133) || (c =? 8232) || (c =? 8233))%N.

Definition cons_head (c : N) (ps : list jsstring) : list jsstring :=
  match ps with
  | p :: ps' => (c :: p) :: ps'
  | [] => [[c]]
  end.

Fixpoint split_lines (s : jsstring) : list jsstring :=
  match s with
  | [] => [[]]
  | c :: s' =>
      match s' with
      | d :: s'' =>
          if ((c =? 13) && (d =? 10))%N then [] :: split_lines s''
          else if is_newline c then [] :: split_lines s'
          else cons_head c (split_lines s')
      | [] => if is_newline c then [[]; []] else [[c]]
      end
  end.

(** A string is truthy when it is not empty. *)
Definition truthy (s : jsstring) : bool :=
  match s with [] => false | _ => true end.

(** [s.lastIndexOf(c)], [-1] when [c] does not occur. *)
Fixpoint lastIndexOf_from (c : N) (s : jsstring) (i : Z) (found : Z) : Z :=
  match s with
  | [] => found
  | d :: s' => lastIndexOf_from c s' (i + 1) (if (d =? c)%N then i else found)
  end.

Definition lastIndexOf (c : N) (s : jsstring) : Z := lastIndexOf_from c s 0 (-1).

(** [s.substring(start)]: a negative start counts as 0. *)
Definition substring (start : Z) (s : jsstring) : jsstring := drop (Z.to_nat start) s.

(** ** The command executor

    [await exec(cmd)] either throws (the promise was rejected) or yields the
    two output streams. *)

Inductive exec_outcome : Type :=
  | Rejected
  | Resolved (stdout stderr : jsstring).

(** ** Installed printers: [_list], [get], [list] *)

Record PrinterItem : Type := {
  name : jsstring;
  connection : jsstring;
  isDefault : bool
}.

(** [new Printer(item)]: the class is defined in another file; only its
    construction from an item is used. *)
Inductive Printer : Type := new_Printer (item : PrinterItem).

(** [line.split(/:(.+)?/)].  A match starts at a colon and its group takes
    every following character up to a line terminator.  [split_colon_raw]
    yields piece, group, piece, group, ..., piece, with an unmatched group as
    the empty string; [split_colon] marks the unmatched groups [undefined]. *)
Fixpoint split_colon_raw (in_group : bool) (s : jsstring) : list jsstring :=
  match s with
  | [] => if in_group then [[]; []] else [[]]
  | c :: s' =>
      if in_group then
        if is_line_terminator c then [] :: cons_head c (split_colon_raw false s')
        else cons_head c (split_colon_raw true s')
      else
        if (c =? chr ":")%N then [] :: split_colon_raw true s'
        else cons_head c (split_colon_raw false s')
  end.

Fixpoint mark_groups (is_group : bool) (ps : list jsstring) : list (option jsstring) :=
  match ps with
  | [] => []
  | p :: ps' =>
      (if is_group && negb (truthy p) then None else Some p)
        :: mark_groups (negb is_group) ps'
  end.

Definition split_colon (s : jsstring) : list (option jsstring) :=
  mark_groups false (split_colon_raw false s).

(** [parts[i]] of an array whose elements may be [undefined]. *)
Definition at_index {A} (parts : list (option A)) (i : nat) : option A :=
  mjoin (parts !! i).

Definition list_line (defaults : jsstring) (line : jsstring) : result PrinterItem :=
  let parts := split_colon line in
  p0 ← defined (at_index parts 0);
  let name := trim (substring (lastIndexOf (chr " ") p0 + 1) p0) in
  p1 ← defined (at_index parts 1);
  let connection := trim p1 in
  Ok {| name := name; connection := connection;
        isDefault := bool_decide (defaults = name) |}.

Definition _list (r : exec_outcome) : result (list PrinterItem) :=
  match r with
  | Rejected => Throw ExecError
  | Resolved stdout stderr =>
      if truthy stderr || negb (truthy stdout) then Ok []
      else
        let lines := filter (λ l, truthy l) (split_lines stdout) in
        first ← defined (head lines);
        let defaults := trim (default [] (split (chr ":") first !! 1)) in
        mapM (list_line defaults) (tail lines)
  end.

(** ** [decodeURIComponent]

    The [Decode] operation of the language with an empty reserved set: a
    character other than [%] is copied; [%XX] below 0x80 is that character;
    a lead octet announces [n] octets (2 to 4), each following one written
    [%XX] with top bits 10, and the octets must be the UTF-8 encoding of a
    code point (shortest form, no surrogate, at most U+10FFFF), which is
    appended as one or two code units.  Anything else throws URIError. *)

Definition hexval (c : N) : option N :=
  if ((48 <=? c) && (c <=? 57))%N then Some (c - 48)%N
  else if ((65 <=? c) && (c <=? 70))%N then Some (c - 55)%N
  else if ((97 <=? c) && (c <=? 102))%N then Some (c - 87)%N
  else None.

Definition hex2 (h l : N) : option N :=
  hi ← hexval h; lo ← hexval l; Some (16 * hi + lo)%N.

(** Number of octets announced by a lead octet [b >= 0x80]; 0 when [b]
    cannot start a sequence. *)
Definition octet_count (b : N) : nat :=
  if (b <? 192)%N then 0
  else if (b <? 224)%N then 2
  else if (b <? 240)%N then 3
  else if (b <? 248)%N then 4
  else 0.

Definition cont_bits (b : N) : N := N.land b 63.

(** The code point of a complete octet sequence, if it is valid UTF-8. *)
Definition utf8_value (octets : list N) : option N :=
  match octets with
  | [b0; b1] =>
      let v := (N.shiftl (N.land b0 31) 6 + cont_bits b1)%N in
      if (128 <=? v)%N then Some v else None
  | [b0; b1; b2] =>
      let v := (N.shiftl (N.land b0 15) 12 + N.shiftl (cont_bits b1) 6 + cont_bits b2)%N in
      if ((2048 <=? v) && negb ((55296 <=? v) && (v <=? 57343)))%N then Some v else None
  | [b0; b1; b2; b3] =>
      let v := (N.shiftl (N.land b0 7) 18 + N.shiftl (cont_bits b1) 12
                + N.shiftl (cont_bits b2) 6 + cont_bits b3)%N in
      if ((65536 <=? v) && (v <=? 1114111))%N then Some v else None
  | _ => None
  end.

(** UTF-16 code units of a code point. *)
Definition code_units (v : N) : jsstring :=
  if (v <? 65536)%N then [v]
  else [(N.land (N.shiftr (v - 65536) 10) 1023 + 55296)%N;
        (N.land (v - 65536) 1023 + 56320)%N].

Definition emit (octets : list N) (k : result jsstring) : result jsstring :=
  match utf8_value octets with
  | Some v => (code_units v ++.) <$> k
  | None => Throw URIError
  end.

(** [%XX] with a continuation octet at the head of [s], binding the octet
    and the rest of the string. *)
#[local] Notation "'next_octet' b rest := s 'in' k" :=
  (match s with
   | p :: h :: l :: rest =>
       if (p =? 37)%N then
         match hex2 h l with
         | Some b => if ((128 <=? b) && (b <? 192))%N then k else Throw URIError
         | None => Throw URIError
         end
       else Throw URIError
   | _ => Throw URIError
   end)
  (at level 10, b name, rest name, k at level 200, only parsing).

Fixpoint decodeURIComponent (s : jsstring) : result jsstring :=
  match s with
  | [] => Ok []
  | c :: s1 =>
      if negb (c =? 37)%N then (c ::.) <$> decodeURIComponent s1
      else
        match s1 with
        | h :: l :: s2 =>
            match hex2 h l with
            | None => Throw URIError
            | Some b0 =>
                if (b0 <? 128)%N then (b0 ::.) <$> decodeURIComponent s2
                else
                  match octet_count b0 with
                  | 2 =>
                      next_octet b1 s3 := s2 in
                      emit [b0; b1] (decodeURIComponent s3)
                  | 3 =>
                      next_octet b1 s3 := s2 in
                      next_octet b2 s4 := s3 in
                      emit [b0; b1; b2] (decodeURIComponent s4)
                  | 4 =>
                      next_octet b1 s3 := s2 in
                      next_octet b2 s4 := s3 in
                      next_octet b3 s5 := s4 in
                      emit [b0; b1; b2; b3] (decodeURIComponent s5)
                  | _ => Throw URIError
                  end
            end
        | _ => Throw URIError
        end
  end.

(** [decodeURIComponent(v)] converts its argument to a string first. *)
Definition to_string (v : option jsstring) : jsstring := default (js "undefined") v.

(** ** Regular expressions

    The patterns of [discover] are sequences of the atoms below.  All three
    carry the flags [gmi] and are created anew for every line, so each
    [exec] searches from index 0: [m] lets [^] match after a line
    terminator, [i] compares letters ignoring case. *)

Inductive atom : Type :=
  | Bol                   (* ^ *)
  | Lit (c : N)           (* one literal character *)
  | Letter                (* [a-zA-Z] *)
  | Dots (greedy : bool)  (* any run of characters, greedy or lazy *)
  | Open (g : nat)        (* opening parenthesis of group g *)
  | Close (g : nat).      (* its closing parenthesis *)

(** Case folding of the [i] flag on the characters that can equal an ASCII
    one: a lower-case ASCII letter folds to its capital; no character
    outside ASCII folds into ASCII. *)
Definition canon (c : N) : N :=
  if ((97 <=? c) && (c <=? 122))%N then (c - 32)%N else c.

Definition is_letter (c : N) : bool :=
  ((65 <=? canon c) && (canon c <=? 90))%N.

Definition at_bol (prev : option N) : bool :=
  match prev with
  | None => true
  | Some c => is_line_terminator c
  end.

(** Positions where groups were opened and closed, most recent first. *)
Abbreviation marks := (list (nat * nat)) (only parsing).

(** A run of characters that are not line terminators, followed by the
    rest of the pattern [k].  Backtracking happens here: the greedy run
    prefers the longest run for which [k] matches, the lazy one the
    shortest. *)
Fixpoint dots (greedy : bool) (k : option N → nat → jsstring → option (marks * marks))
    (prev : option N) (pos : nat) (s : jsstring) : option (marks * marks) :=
  let stop := k prev pos s in
  match s with
  | d :: s' =>
      if is_line_terminator d then stop
      else
        let more := dots greedy k (Some d) (S pos) s' in
        if greedy then from_option Some stop more
        else from_option Some more stop
  | [] => stop
  end.

(** [run r prev pos s] matches the atoms [r] against [s], the input from
    index [pos] on, [prev] being the character before it. *)
Fixpoint run (r : list atom) (prev : option N) (pos : nat) (s : jsstring)
    (opened closed : marks) {struct r} : option (marks * marks) :=
  match r with
  | [] => Some (opened, closed)
  | Bol :: r' => if at_bol prev then run r' prev pos s opened closed else None
  | Lit c :: r' =>
      match s with
      | d :: s' =>
          if (canon d =? canon c)%N then run r' (Some d) (S pos) s' opened closed
          else None
      | [] => None
      end
  | Letter :: r' =>
      match s with
      | d :: s' =>
          if is_letter d then run r' (Some d) (S pos) s' opened closed else None
      | [] => None
      end
  | Dots greedy :: r' =>
      dots greedy (λ prev pos s, run r' prev pos s opened closed) prev pos s
  | Open g :: r' => run r' prev pos s ((g, pos) :: opened) closed
  | Close g :: r' => run r' prev pos s opened ((g, pos) :: closed)
  end.

(** The leftmost start index at which the pattern matches. *)
Fixpoint search (r : list atom) (prev : option N) (pos : nat) (s : jsstring)
    : option (marks * marks) :=
  match run r prev pos s [] [] with
  | Some m => Some m
  | None =>
      match s with
      | [] => None
      | d :: s' => search r (Some d) (S pos) s'
      end
  end.

Definition mark (g : nat) (ms : marks) : option nat :=
  snd <$> find (λ m, bool_decide (fst m = g)) ms.

(** [rx.exec(s)]: [None] is [null]; otherwise the function gives the text of
    each group, [None] for a group that is [undefined]. *)
Definition exec (r : list atom) (s : jsstring) : option (nat → option jsstring) :=
  match search r None 0 s with
  | None => None
  | Some (opened, closed) =>
      Some (λ g, a ← mark g opened; b ← mark g closed; Some (take (b - a) (drop a s)))
  end.

(** [m[g]] is truthy: the group took part in the match and is not empty. *)
Definition group (m : nat → option jsstring) (g : nat) : option jsstring :=
  match m g with
  | Some ((_ :: _) as t) => Some t
  | _ => None
  end.

(** [rx_type]: group 1 is the whole match, anchored at a line start; group 2
    is a letter and a greedy run; the text [://] follows group 2. *)
Definition rx_type : list atom :=
  [Open 1; Bol; Open 2; Letter; Dots true; Close 2;
   Lit (chr ":"); Lit (chr "/"); Lit (chr "/"); Close 1].

(** [rx_usb]: six groups in a row: the text [usb://], a greedy run, a slash,
    a greedy run, a question mark, a greedy run. *)
Definition rx_usb : list atom :=
  [Open 1; Lit (chr "u"); Lit (chr "s"); Lit (chr "b");
   Lit (chr ":"); Lit (chr "/"); Lit (chr "/"); Close 1;
   Open 2; Dots true; Close 2; Open 3; Lit (chr "/"); Close 3;
   Open 4; Dots true; Close 4; Open 5; Lit (chr "?"); Close 5;
   Open 6; Dots true; Close 6].

(** [rx_network]: two slashes, group 1 a lazy run, then the text [._]. *)
Definition rx_network : list atom :=
  [Lit (chr "/"); Lit (chr "/"); Open 1; Dots false; Close 1;
   Lit (chr "."); Lit (chr "_")].

(** ** Device discovery: [discover] *)

Definition IGNORED_DEVICES : list jsstring :=
  [js "http"; js "https"; js "ipp"; js "ipps"; js "lpd"; js "smb"; js "socket";
   js "fax"; js "canonoipnets2"; js "cnips2"; js "epsonfax"; js "hpfax"].

(** [IGNORED_DEVICES.includes(type)]; [undefined] is not a member. *)
Definition includes (xs : list jsstring) (v : option jsstring) : bool :=
  match v with
  | Some x => bool_decide (x ∈ xs)
  | None => false
  end.

Record Params : Type := {
  uri : option jsstring;
  uri_pretty : jsstring;
  protocol : jsstring;
  model : jsstring
}.

(** [new InstallablePrinter(params)]: the class is defined in another file;
    only its construction from [params] is used. *)
Inductive InstallablePrinter : Type := new_InstallablePrinter (params : Params).

(** The classification of one device identifier [type] (lines 139 to 179 of
    manager.js): decoding, scheme, model. *)
Definition classify (type : option jsstring) : result Params :=
  let uri := type in
  uri_decoded ← decodeURIComponent (to_string type);
  let regexed_type := exec rx_type uri_decoded in
  let connection_type := default [] (m ← regexed_type; group m 2) in
  let model :=
    if bool_decide (connection_type = js "usb") then
      let regexed_usb := exec rx_usb uri_decoded in
      match m ← regexed_usb; g2 ← group m 2; g4 ← group m 4; Some (g2, g4) with
      | Some (g2, g4) => g2 ++ js " " ++ g4
      | None => js "unknown"
      end
    else
      let regexed_network := exec rx_network uri_decoded in
      match m ← regexed_network; group m 1 with
      | Some g1 => g1
      | None => js "unknown"
      end in
  Ok {| uri := uri; uri_pretty := uri_decoded;
        protocol := connection_type; model := model |}.

(** The object [answer], created as an empty object literal.  [own] holds
    its own properties, each an array.  [proto] tells what its prototype is:
    [None] while it is [Object.prototype], [Some devices] once it is an
    array.  The name [__proto__] is no own property: it is the accessor
    inherited from [Object.prototype], whose getter returns the prototype
    and whose setter, given an array, makes that array the prototype. *)
Record answer_obj : Type := {
  own : gmap (list N) (list InstallablePrinter);
  proto : option (list InstallablePrinter)
}.

(** [{}]. *)
Definition empty_answer : answer_obj := {| own := ∅; proto := None |}.

(** [answer[key]] when that value is an array ([_.isArray]), [None] when it
    is anything else.  A name that is not an own property is looked up along
    the prototype chain; the values found there are functions, numbers,
    devices or [undefined], never arrays, save for [__proto__]. *)
Definition get_array (answer : answer_obj) (key : jsstring)
    : option (list InstallablePrinter) :=
  if bool_decide (key = js "__proto__") then proto answer else own answer !! key.

(** [answer[key] = devices] for an array [devices], and the update in place
    of the array that [answer[key]] refers to.  Every property found along
    the prototype chain is writable, so the assignment of another name
    creates an own property. *)
Definition set_array (answer : answer_obj) (key : jsstring)
    (devices : list InstallablePrinter) : answer_obj :=
  if bool_decide (key = js "__proto__")
  then {| own := own answer; proto := Some devices |}
  else {| own := <[key := devices]> (own answer); proto := proto answer |}.

(** The body of [lines.forEach(item => ...)].  Reading and writing
    [answer[protocol]] converts [protocol] to a string. *)
Definition discover_item (answer : answer_obj) (item : jsstring) : result answer_obj :=
  let parts := split (chr " ") item in
  let type := parts !! 1 in
  let protocol := to_string (parts !! 0) in
  if negb (includes IGNORED_DEVICES type) then
    let answer :=
      match get_array answer protocol with
      | Some _ => answer
      | None => set_array answer protocol []
      end in
    params ← classify type;
    devices ← defined (get_array answer protocol);
    Ok (set_array answer protocol (devices ++ [new_InstallablePrinter params]))
  else Ok answer.

(** The lines handed to [forEach]: trimmed, empty ones removed. *)
Definition discover_lines (stdout : jsstring) : list jsstring :=
  filter (λ line, truthy line)
    (map (λ line, if truthy line then trim line else line) (split_lines stdout)).

Definition discover (r : exec_outcome) : result answer_obj :=
  match r with
  | Rejected => Throw ExecError
  | Resolved stdout _ => foldM discover_item empty_answer (discover_lines stdout)
  end.

(** ** The driver catalog *)

Record DriverRecord : Type := {
  driver : jsstring;
  lang : jsstring;
  makeAndModel : jsstring;
  id : jsstring
}.

(** A driver object: the record pushed by the catalog loop together with its
    identity, the index at which it was pushed.  Two objects are the same
    value only if they are the same object. *)
Abbreviation driver_obj := (nat * DriverRecord)%type (only parsing).

(** [part.split('=')[1].trim()] *)
Definition field (part : jsstring) : result jsstring :=
  v ← defined (split (chr "=") part !! 1);
  Ok (trim v).

(** The loop [while (lines.length > 4) { parts = lines.splice(0, 4); ... }]. *)
Fixpoint read_drivers (lines : list jsstring) : result (list DriverRecord) :=
  match lines with
  | p0 :: p1 :: p2 :: p3 :: ((_ :: _) as lines') =>
      d ← field p0;
      l ← field p1;
      m ← field p2;
      i ← field p3;
      drivers ← read_drivers lines';
      Ok ({| driver := d; lang := l; makeAndModel := m; id := i |} :: drivers)
  | _ => Ok []
  end.

Definition objects (drivers : list DriverRecord) : list driver_obj :=
  imap (λ i d, (i, d)) drivers.

(** ** The [fuzzy] package

    [findDrivers] calls [fuzzy.filter(pattern, drivers, {extract})] of the
    npm package [fuzzy].  The properties below hold for any such function
    (a variable of the section [Manager]); [Fuzzy.filter] follows the
    package, with scores as exact naturals, and serves as the instance on
    which the properties are exercised. *)

Module Fuzzy.
Section Package.

Variable toLowerCase : jsstring → jsstring.
Context {A : Type} (extract : A → jsstring).

Inductive score : Set := Finite (n : N) | Infinity.

Record entry : Type := { score_of : score; index : nat; original : A }.

(** The loop of [fuzzy.match] over [idx = 0 .. len - 1]: a character that
    equals the next one of the pattern advances the pattern and more than
    doubles the running score; any other resets the running score. *)
Fixpoint match_loop (compareString pattern : jsstring) (steps idx patternIdx : nat)
    (currScore totalScore : N) : nat * N :=
  match steps with
  | 0 => (patternIdx, totalScore)
  | S steps' =>
      if bool_decide (compareString !! idx = pattern !! patternIdx) then
        let currScore := (currScore + (1 + currScore))%N in
        match_loop compareString pattern steps' (S idx) (S patternIdx)
          currScore (totalScore + currScore)%N
      else
        match_loop compareString pattern steps' (S idx) patternIdx 0%N totalScore
  end.

(** [fuzzy.match(pattern, str, opts)]: [None] is [null]. *)
Definition match_ (pattern str : jsstring) : option score :=
  let compareString := toLowerCase str in
  let pattern := toLowerCase pattern in
  let '(patternIdx, totalScore) :=
    match_loop compareString pattern (length str) 0 0 0%N 0%N in
  if bool_decide (patternIdx = length pattern) then
    Some (if bool_decide (compareString = pattern) then Infinity else Finite totalScore)
  else None.

(** The comparator of the sort is negative: [a] goes before [b]. *)
Definition before (a b : entry) : bool :=
  match score_of a, score_of b with
  | Infinity, Finite _ => true
  | Finite _, Infinity => false
  | Finite x, Finite y =>
      (y <? x)%N || ((x =? y)%N && (index a <? index b)%nat)
  | Infinity, Infinity => (index a <? index b)%nat
  end.

Fixpoint insert_sorted (a : entry) (l : list entry) : list entry :=
  match l with
  | [] => [a]
  | b :: l' => if before b a then b :: insert_sorted a l' else a :: b :: l'
  end.

Definition sort (l : list entry) : list entry := foldr insert_sorted [] l.

Fixpoint collect (pattern : jsstring) (idx : nat) (arr : list A) : list entry :=
  match arr with
  | [] => []
  | element :: arr' =>
      match match_ pattern (extract element) with
      | Some sc =>
          {| score_of := sc; index := idx; original := element |}
            :: collect pattern (S idx) arr'
      | None => collect pattern (S idx) arr'
      end
  end.

(** [fuzzy.filter(pattern, arr, {extract})] *)
Definition filter (pattern : jsstring) (arr : list A) : list entry :=
  match arr with
  | [] => []
  | _ => sort (collect pattern 0 arr)
  end.

End Package.
End Fuzzy.

(** [toLowerCase] on strings of ASCII characters. *)
Definition toLowerCase_ascii (s : jsstring) : jsstring :=
  map (λ c, if ((65 <=? c) && (c <=? 90))%N then (c + 32)%N else c) s.

(** The originals of the hits of the package's filter on driver objects. *)
Definition fuzzy_originals (pattern : jsstring) (drivers : list driver_obj)
    : list driver_obj :=
  map Fuzzy.original
    (Fuzzy.filter toLowerCase_ascii (λ el : driver_obj, makeAndModel (snd el))
       pattern drivers).

(** ** Values of the result array of [findDrivers] *)

Inductive jsval : Type :=
  | Undefined
  | Driver (obj : driver_obj).

(** Equality of array elements as [_.union] sees it: same object. *)
Definition same_value (a b : jsval) : bool :=
  match a, b with
  | Undefined, Undefined => true
  | Driver x, Driver y => bool_decide (fst x = fst y)
  | _, _ => false
  end.

(** [_.flatten(items)]: arrays are spread, anything else is kept. *)
Definition flatten (items : list (option (list driver_obj))) : list jsval :=
  items ≫= λ item,
    match item with
    | Some hits => map Driver hits
    | None => [Undefined]
    end.

(** [_.union(array)] on one array: its elements, first occurrences only. *)
Fixpoint union_seen (seen : list jsval) (array : list jsval) : list jsval :=
  match array with
  | [] => []
  | v :: array' =>
      if existsb (same_value v) seen then union_seen seen array'
      else v :: union_seen (seen ++ [v]) array'
  end.

Definition union (array : list jsval) : list jsval := union_seen [] array.

(** [_.slice(array, 0, end)]: a negative [end] counts from the back. *)
Definition slice0 (array : list jsval) (end_ : Z) : list jsval :=
  let len := Z.of_nat (length array) in
  let end_ := if (len <? end_)%Z then len else end_ in
  let end_ := if (end_ <? 0)%Z then (end_ + len)%Z else end_ in
  take (Z.to_nat end_) array.

(** The argument [slugs]: omitted, one string, or an array of strings. *)
Inductive slugs_arg : Type :=
  | NoSlugs
  | OneSlug (slug : jsstring)
  | Slugs (slugs : list jsstring).

(** [!slugs] is false: an array, or a string that is not empty. *)
Definition supplied (slugs : slugs_arg) : bool :=
  match slugs with
  | NoSlugs => false
  | OneSlug slug => truthy slug
  | Slugs _ => true
  end.

Definition arrify (slugs : slugs_arg) : list jsstring :=
  match slugs with
  | NoSlugs => []
  | OneSlug slug => [slug]
  | Slugs l => l
  end.

Section Manager.

(** [String.prototype.toLowerCase] (through [_.toLower]): the Unicode case
    mapping is a table of the runtime. *)
Variable toLowerCase : jsstring → jsstring.

(** [fuzzy_filter pattern drivers] stands for
    [fuzzy.filter(pattern, drivers, options).map(item => item.original)]. *)
Variable fuzzy_filter : jsstring → list driver_obj → list driver_obj.

(** [get(name)]: [name] may be omitted; an empty name is falsy too. *)
Definition get (name0 : option jsstring) (r : exec_outcome) : result (option Printer) :=
  items ← _list r;
  let wanted (item : PrinterItem) : bool :=
    match name0 with
    | Some ((_ :: _) as n) => bool_decide (toLowerCase (name item) = toLowerCase n)
    | _ => isDefault item
    end in
  Ok (option_map new_Printer (find wanted items)).

Definition list_ (r : exec_outcome) : result (list Printer) :=
  items ← _list r;
  Ok (map new_Printer items).

(** The loop [while (index > 0)] of one slug, [index] counting down.  The
    first component logs the patterns handed to the matcher, in order; the
    second is the value returned for the slug, [None] when the loop ends
    without a [return]. *)
Fixpoint slug_loop (drivers : list driver_obj) (tokens : list jsstring) (index : nat)
    : list jsstring * option (list driver_obj) :=
  match index with
  | 0 => ([], None)
  | S index' =>
      let pattern := join (chr " ") (take index tokens) in
      let items := fuzzy_filter pattern drivers in
      match items with
      | _ :: _ => ([pattern], Some items)
      | [] =>
          let '(log, value) := slug_loop drivers tokens index' in
          (pattern :: log, value)
      end
  end.

Definition match_slug (drivers : list driver_obj) (slug : jsstring)
    : list jsstring * option (list driver_obj) :=
  let tokens := split (chr " ") slug in
  slug_loop drivers tokens (length tokens).

(** The part of [findDrivers] after [slugs = arrify(slugs)]. *)
Definition find_by_slugs (drivers : list driver_obj) (slugs : list jsstring)
    (maxsize : nat) : list jsval :=
  let items := map (λ slug, snd (match_slug drivers slug)) slugs in
  match items with
  | [] => []
  | _ => slice0 (union (flatten items)) (Z.of_nat maxsize)
  end.

(** [findDrivers(slugs, maxsize = 10)]; [maxsize] is a count. *)
Definition findDrivers (slugs : slugs_arg) (maxsize : option nat) (r : exec_outcome)
    : result (list jsval) :=
  match r with
  | Rejected => Throw ExecError
  | Resolved stdout _ =>
      let lines := split 10%N stdout in
      drivers ← read_drivers lines;
      let drivers := objects drivers in
      if negb (supplied slugs) then Ok (map Driver drivers)
      else Ok (find_by_slugs drivers (arrify slugs) (default 10 maxsize))
  end.

End Manager.

(** ** Vocabulary of the statements *)

(** [s.startsWith(t)] and [s.includes(t)]. *)
Fixpoint starts_with (t s : jsstring) : bool :=
  match t, s with
  | [], _ => true
  | c :: t', d :: s' => (c =? d)%N && starts_with t' s'
  | _ :: _, [] => false
  end.

Fixpoint str_includes (t s : jsstring) : bool :=
  starts_with t s ||
  match s with
  | [] => false
  | _ :: s' => str_includes t s'
  end.

(** The two tokens [discover] reads from a line: [parts[1]], which it calls
    [type] and treats as the device URI, and [parts[0]], the property name
    under which the device is filed. *)
Definition type_of (item : jsstring) : option jsstring := split (chr " ") item !! 1.

Definition protocol_of (item : jsstring) : jsstring :=
  to_string (split (chr " ") item !! 0).

Definition ignored (item : jsstring) : bool := includes IGNORED_DEVICES (type_of item).

Definition decodable (item : jsstring) : bool :=
  match decodeURIComponent (to_string (type_of item)) with
  | Ok _ => true
  | Throw _ => false
  end.

(** [device] is in the array that is the own property [key] of [answer]. *)
Definition filed (answer : answer_obj)
    (key : jsstring) (device : InstallablePrinter) : Prop :=
  ∃ devices, own answer !! key = Some devices ∧ device ∈ devices.

(** [device] is in the array that is the prototype of [answer]. *)
Definition inherited (answer : answer_obj) (device : InstallablePrinter) : Prop :=
  ∃ devices, proto answer = Some devices ∧ device ∈ devices.

(** [device] is in the array that [answer[key]] evaluates to. *)
Definition held (answer : answer_obj)
    (key : jsstring) (device : InstallablePrinter) : Prop :=
  ∃ devices, get_array answer key = Some devices ∧ device ∈ devices.

(** No window of the slug, from all its tokens down to the first one alone,
    has a hit. *)
Definition no_window_hits (fuzzy_filter : jsstring → list (nat * DriverRecord) → list (nat * DriverRecord))
    (drivers : list (nat * DriverRecord)) (slug : jsstring) : bool :=
  let tokens := split (chr " ") slug in
  forallb
    (λ index,
       match fuzzy_filter (join (chr " ") (take index tokens)) drivers with
       | [] => true
       | _ :: _ => false
       end)
    (seq 1 (length tokens)).

(** ** Inputs used in the examples *)

Definition LF : jsstring := [10%N].

(** First a default destination, then one line in the form of a printer
    status report. *)
Definition status_report : jsstring :=
  js "system default destination: HP_LaserJet" ++ LF
  ++ js "printer HP_LaserJet is idle.  enabled since ...: ipp://host/printers/HP_LaserJet"
  ++ LF.

(** The same printer in the form [lpstat -s] prints devices. *)
Definition status_devices : jsstring :=
  js "system default destination: HP_LaserJet" ++ LF
  ++ js "device for HP_LaserJet: ipp://host/printers/HP_LaserJet" ++ LF.

(** A device line that has lost its colon. *)
Definition status_no_colon : jsstring :=
  js "system default destination: HP_LaserJet" ++ LF
  ++ js "device for HP_LaserJet ipp" ++ LF.

(** One ignored generic backend, one USB printer, one identifier with a
    broken escape. *)
Definition devices_report : jsstring :=
  js "network socket" ++ LF
  ++ js "direct usb://HP/LaserJet%20P1102?serial=0001" ++ LF.

Definition devices_broken_escape : jsstring :=
  js "direct usb://HP/LaserJet%20P1102?serial=0001" ++ LF
  ++ js "network dnssd://Brother%2" ++ LF.

(** One driver, as [lpinfo -l -m] prints it, every line ended by LF. *)
Definition catalog_brother : jsstring :=
  js "Model:  name = brother-hl5270dn.ppd" ++ LF
  ++ js "        natural_language = en" ++ LF
  ++ js "        make-and-model = Brother HL-5270DN series" ++ LF
  ++ js "        device-id = MFG:Brother;MDL:HL-5270DN series;" ++ LF.

Definition brother : DriverRecord :=
  {| driver := js "brother-hl5270dn.ppd"; lang := js "en";
     makeAndModel := js "Brother HL-5270DN series";
     id := js "MFG:Brother;MDL:HL-5270DN series;" |}.

(** A second driver, and the catalog of the two. *)
Definition laserjet_driver : DriverRecord :=
  {| driver := js "hp-laserjet.ppd"; lang := js "en";
     makeAndModel := js "HP LaserJet Series"; id := js "MFG:HP;MDL:LaserJet;" |}.

Definition catalog_two : jsstring :=
  catalog_brother
  ++ js "Model:  name = hp-laserjet.ppd" ++ LF
  ++ js "        natural_language = en" ++ LF
  ++ js "        make-and-model = HP LaserJet Series" ++ LF
  ++ js "        device-id = MFG:HP;MDL:LaserJet;" ++ LF.

(** The same four lines, the last one not ended by LF. *)
Definition catalog_four_lines : jsstring :=
  js "Model:  name = brother-hl5270dn.ppd" ++ LF
  ++ js "        natural_language = en" ++ LF
  ++ js "        make-and-model = Brother HL-5270DN series" ++ LF
  ++ js "        device-id = MFG:Brother;MDL:HL-5270DN series;".

(** ** Vocabulary of the further properties *)

(** No line terminator in [s]; no occurrence of [c] in [s]; only letters. *)
Definition one_line (s : jsstring) : bool :=
  forallb (λ c, negb (is_line_terminator c)) s.

Definition without (c : N) (s : jsstring) : bool :=
  forallb (λ d, negb (d =? c)%N) s.

Definition letters (s : jsstring) : bool := forallb is_letter s.

(** The character before the position reached after reading [a]. *)
Definition prev_after (prev : option N) (a : jsstring) : option N :=
  match last a with
  | Some c => Some c
  | None => prev
  end.

(** The lines that [discover] files under [key]: not ignored, first token
    [key]. *)
Definition lines_of_key (key : jsstring) (items : list jsstring) : list jsstring :=
  List.filter (λ item, negb (ignored item) && bool_decide (protocol_of item = key)) items.

(** The USB printer of [devices_report], classified. *)
Definition laserjet : Params :=
  {| uri := Some (js "usb://HP/LaserJet%20P1102?serial=0001");
     uri_pretty := js "usb://HP/LaserJet P1102?serial=0001";
     protocol := js "usb";
     model := js "HP LaserJet P1102" |}.

(** The test of [get] on one item: the name, ignoring case, when a name that
    is not empty is given; the default flag otherwise. *)
Definition get_test (toLowerCase : jsstring → jsstring) (name0 : option jsstring)
    (item : PrinterItem) : bool :=
  match name0 with
  | Some ((_ :: _) as n) => bool_decide (toLowerCase (name item) = toLowerCase n)
  | _ => isDefault item
  end.

(** A catalog text: every line ended by LF. *)
Definition unlines (lines : list jsstring) : jsstring :=
  concat (map (λ l, l ++ LF) lines).

(** The four lines of a driver, with labels before the [=] signs. *)
Definition render_driver (l0 l1 l2 l3 : jsstring) (d : DriverRecord) : list jsstring :=
  [l0 ++ chr "=" :: driver d; l1 ++ chr "=" :: lang d;
   l2 ++ chr "=" :: makeAndModel d; l3 ++ chr "=" :: id d].



(** A label has no [=] and no LF; a value is moreover already trimmed. *)
Definition clean_label (l : jsstring) : bool := without (chr "=") l && without 10%N l.

Definition clean_value (v : jsstring) : bool :=
  bool_decide (trim v = v) && clean_label v.

Definition clean_driver (d : DriverRecord) : bool :=
  clean_value (driver d) && clean_value (lang d)
  && clean_value (makeAndModel d) && clean_value (id d).

(** What [_.union] compares: the identity of a driver object; [undefined]
    is one value. *)
Definition identity (v : jsval) : option nat :=
  match v with
  | Undefined => None
  | Driver obj => Some (fst obj)
  end.

(** The pattern made of the first [i] tokens, and the patterns for
    [i = index, index - 1, ..., j]. *)
Definition window (tokens : list jsstring) (i : nat) : jsstring :=
  join (chr " ") (take i tokens).

Definition windows_down (tokens : list jsstring) (index j : nat) : list jsstring :=
  map (window tokens) (reverse (seq j (S index - j))).

(** * Properties *)

(** ** The embedding on small inputs *)

Example split_lines_crlf :
  split_lines (js "a" ++ [13; 10] ++ js "b" ++ [10; 13] ++ js "c" ++ [133])%N
  = [js "a"; js "b"; []; js "c"; []].
Proof. reflexivity. Qed.

Example split_keeps_empty : split (chr ":") (js "a:b:") = [js "a"; js "b"; []].
Proof. reflexivity. Qed.

Example trim_both_ends : trim (9 :: js "  a b " ++ [160; 10])%N = js "a b".
Proof. reflexivity. Qed.

Example split_colon_first_colon :
  split_colon (js "device for X: ipp://h:631/p") = [Some (js "device for X"); Some (js " ipp://h:631/p"); Some []].
Proof. reflexivity. Qed.

Example split_colon_nothing_after : split_colon (js "x:") = [Some (js "x"); None; Some []].
Proof. reflexivity. Qed.

Example decode_space : decodeURIComponent (js "HP%20LaserJet") = Ok (js "HP LaserJet").
Proof. reflexivity. Qed.

Example decode_euro : decodeURIComponent (js "%E2%82%AC") = Ok [8364%N].
Proof. reflexivity. Qed.

Example decode_surrogate_pair :
  decodeURIComponent (js "%F0%9F%98%80") = Ok [55357%N; 56832%N].
Proof. reflexivity. Qed.

Example decode_malformed :
  decodeURIComponent (js "%") = Throw URIError
  ∧ decodeURIComponent (js "a%4") = Throw URIError
  ∧ decodeURIComponent (js "%zz") = Throw URIError
  ∧ decodeURIComponent (js "%C0%80") = Throw URIError
  ∧ decodeURIComponent (js "%ED%A0%80") = Throw URIError
  ∧ decodeURIComponent (js "%E2%82") = Throw URIError.
Proof. repeat split; reflexivity. Qed.

Example rx_type_last_separator :
  (m ← exec rx_type (js "usb://a://b"); group m 2) = Some (js "usb://a").
Proof. reflexivity. Qed.

Example rx_type_second_line :
  (m ← exec rx_type (js "1" ++ LF ++ js "usb://x"); group m 2) = Some (js "usb").
Proof. reflexivity. Qed.

Example rx_network_lazy :
  (m ← exec rx_network (js "dnssd://A._b._c"); group m 1) = Some (js "A").
Proof. reflexivity. Qed.

Example classify_usb :
  classify (Some (js "usb://HP/LaserJet%20P1102?serial=0001"))
  = Ok {| uri := Some (js "usb://HP/LaserJet%20P1102?serial=0001");
          uri_pretty := js "usb://HP/LaserJet P1102?serial=0001";
          protocol := js "usb"; model := js "HP LaserJet P1102" |}.
Proof. vm_compute. reflexivity. Qed.

Example classify_upper_case_scheme :
  model <$> classify (Some (js "USB://HP/LaserJet?x")) = Ok (js "unknown").
Proof. vm_compute. reflexivity. Qed.

Example classify_undefined :
  classify None
  = Ok {| uri := None; uri_pretty := js "undefined"; protocol := []; model := js "unknown" |}.
Proof. vm_compute. reflexivity. Qed.

Example classify_no_scheme_plain :
  classify (Some (js "foo"))
  = Ok {| uri := Some (js "foo"); uri_pretty := js "foo";
          protocol := []; model := js "unknown" |}.
Proof. vm_compute. reflexivity. Qed.

Example classify_slashes_without_marker :
  model <$> classify (Some (js "foo//bar")) = Ok (js "unknown").
Proof. vm_compute. reflexivity. Qed.

Example discover_dnssd :
  discover
    (Resolved (js "dnssd dnssd://Brother%20HL-5270DN%20series._pdl-datastream._tcp.local./?bidi") [])
  = Ok {| own :=
            {[ js "dnssd" :=
                 [new_InstallablePrinter
                    {| uri := Some (js "dnssd://Brother%20HL-5270DN%20series._pdl-datastream._tcp.local./?bidi");
                       uri_pretty := js "dnssd://Brother HL-5270DN series._pdl-datastream._tcp.local./?bidi";
                       protocol := js "dnssd";
                       model := js "Brother HL-5270DN series" |}] ]};
          proto := None |}.
Proof. vm_compute. reflexivity. Qed.

Example discover_generic_backends :
  discover (Resolved (js "network socket" ++ LF ++ js "network ipp" ++ LF ++ js "network lpd") [])
  = Ok empty_answer.
Proof. vm_compute. reflexivity. Qed.

(** A line whose first token is [__proto__] adds no own property: its
    device goes into the array that becomes the prototype of the object. *)
Example discover_proto_line :
  discover
    (Resolved (js "__proto__ usb://HP/LaserJet%20P1102?serial=0001" ++ LF
               ++ js "__proto__ usb://HP/LaserJet%20P1102?serial=0001" ++ LF
               ++ js "direct usb://HP/LaserJet%20P1102?serial=0001") [])
  = Ok {| own := {[ js "direct" := [new_InstallablePrinter laserjet] ]};
          proto := Some [new_InstallablePrinter laserjet;
                         new_InstallablePrinter laserjet] |}.
Proof. vm_compute. reflexivity. Qed.

Example findDrivers_catalog :
  findDrivers fuzzy_originals NoSlugs None (Resolved catalog_brother [])
  = Ok [Driver (0, brother)].
Proof. vm_compute. reflexivity. Qed.

Example findDrivers_two_tokens :
  findDrivers fuzzy_originals (OneSlug (js "Brother HL-5270DN")) None
    (Resolved catalog_brother [])
  = Ok [Driver (0, brother)].
Proof. vm_compute. reflexivity. Qed.

Example findDrivers_same_driver_twice :
  findDrivers fuzzy_originals (Slugs [js "brother"; js "hl zzz"]) None
    (Resolved catalog_brother [])
  = Ok [Driver (0, brother)].
Proof. vm_compute. reflexivity. Qed.

Example findDrivers_undefined_among_hits :
  findDrivers fuzzy_originals (Slugs [js "zzz"; js "brother"; js "qqq"]) None
    (Resolved catalog_brother [])
  = Ok [Undefined; Driver (0, brother)].
Proof. vm_compute. reflexivity. Qed.

Example match_slug_shortens :
  match_slug fuzzy_originals [(0, brother)] (js "Brother zzz")
  = ([js "Brother zzz"; js "Brother"], Some [(0, brother)]).
Proof. vm_compute. reflexivity. Qed.

(** ** Helper lemmas: the exception monad *)

Lemma bind_Ok {A B} (f : A → result B) (a : A) : (Ok a ≫= f) = f a.
Proof. reflexivity. Qed.

Lemma bind_Throw {A B} (f : A → result B) (e : error) : (Throw e ≫= f) = Throw e.
Proof. reflexivity. Qed.

Lemma mapM_cons {A B} (f : A → result B) (x : A) (xs : list A) :
  mapM f (x :: xs) = (y ← f x; ys ← mapM f xs; Ok (y :: ys)).
Proof. reflexivity. Qed.

(** When every exception of [f] is [e] and [f] throws on some element, the
    traversal throws [e]. *)
Lemma mapM_throws {A B} (f : A → result B) (e : error) (xs : list A) (x : A) :
  (∀ y e', f y = Throw e' → e' = e) →
  x ∈ xs → f x = Throw e → mapM f xs = Throw e.
Proof.
  intros Hall Hin Hx. induction Hin as [x xs | x y xs Hin IH].
  - rewrite mapM_cons, Hx. reflexivity.
  - rewrite mapM_cons. destruct (f y) as [b | e'] eqn:Hy.
    + rewrite bind_Ok, IH by assumption. reflexivity.
    + rewrite (Hall _ _ Hy). reflexivity.
Qed.

Lemma foldM_app {A S} (f : S → A → result S) (s : S) (xs ys : list A) :
  foldM f s (xs ++ ys) = (s' ← foldM f s xs; foldM f s' ys).
Proof.
  revert s. induction xs as [| x xs IH]; intros s; [reflexivity |].
  cbn [foldM app]. destruct (f s x) as [s' | e]; [| reflexivity].
  rewrite !bind_Ok. apply IH.
Qed.

(** ** Helper lemmas: installed printers *)

(** Without a colon the pattern of [list_line] never matches: the split
    returns the line alone. *)
Lemma split_colon_raw_no_colon (line : jsstring) :
  chr ":" ∉ line → split_colon_raw false line = [line].
Proof.
  induction line as [| c line IH]; intros Hno; [reflexivity |].
  cbn [split_colon_raw]. destruct (N.eqb_spec c (chr ":")) as [-> | Hne].
  - exfalso. apply Hno. constructor.
  - rewrite IH; [reflexivity |]. intros Hin. apply Hno. by constructor.
Qed.

Lemma list_line_no_colon (defaults line : jsstring) :
  chr ":" ∉ line → list_line defaults line = Throw TypeError.
Proof.
  intros Hno. unfold list_line, split_colon.
  rewrite split_colon_raw_no_colon by assumption. reflexivity.
Qed.

Lemma list_line_error (defaults line : jsstring) (e : error) :
  list_line defaults line = Throw e → e = TypeError.
Proof.
  unfold list_line.
  destruct (at_index (split_colon line) 0); cbn; [| congruence].
  destruct (at_index (split_colon line) 1); cbn; congruence.
Qed.

Lemma split_lines_nil_inv (stdout : jsstring) :
  filter (λ l : jsstring, truthy l) (split_lines stdout) ≠ [] → truthy stdout = true.
Proof. destruct stdout; [intros H; by destruct H | reflexivity]. Qed.

(** ** Installed printers *)

(** C3 (counterexample): when the promise of the executor is rejected, the
    rejection reaches the caller of [list] and of [get]; no empty sequence
    is observed. *)
Lemma list_rejected_propagates :
  _list Rejected = Throw ExecError
  ∧ list_ Rejected = Throw ExecError
  ∧ get toLowerCase_ascii None Rejected = Throw ExecError
  ∧ list_ Rejected ≠ Ok [].
Proof. repeat split; discriminate. Qed.

(** C3 (as amended): when the executor resolves and the command wrote on its
    error stream or printed nothing, [_list] returns the empty sequence, so
    [list] returns the empty sequence and [get] returns [undefined], with no
    exception. *)
Theorem list_no_data_is_empty (toLowerCase : jsstring → jsstring)
    (stdout stderr : jsstring) (name0 : option jsstring) :
  truthy stderr = true ∨ truthy stdout = false →
  _list (Resolved stdout stderr) = Ok []
  ∧ list_ (Resolved stdout stderr) = Ok []
  ∧ get toLowerCase name0 (Resolved stdout stderr) = Ok None.
Proof.
  intros Hno.
  assert (H : _list (Resolved stdout stderr) = Ok []).
  { unfold _list. destruct Hno as [-> | ->]; [reflexivity |].
    by rewrite orb_true_r. }
  unfold list_, get. rewrite H. repeat split; reflexivity.
Qed.

Lemma list_no_data_is_empty_witness :
  _list (Resolved [] (js "lpstat: Bad file descriptor")) = Ok []
  ∧ list_ (Resolved [] (js "lpstat: Bad file descriptor")) = Ok []
  ∧ get toLowerCase_ascii (Some (js "HP_LaserJet"))
      (Resolved [] (js "lpstat: Bad file descriptor")) = Ok None.
Proof.
  apply (list_no_data_is_empty toLowerCase_ascii [] (js "lpstat: Bad file descriptor")).
  left. reflexivity.
Defined.

(** C5 (counterexample): on the status text of the scenario, [list] does not
    yield the record named HP_LaserJet and marked default. *)
Lemma list_status_report_not_default :
  list_ (Resolved status_report [])
  ≠ Ok [new_Printer {| name := js "HP_LaserJet";
                       connection := js "ipp://host/printers/HP_LaserJet";
                       isDefault := true |}].
Proof. vm_compute. discriminate. Qed.

(** C5 (as amended): on the status text of the scenario, [list] yields one
    record whose name is the text between the last space and the first colon
    of the line, that is three dots, which is not the default name; on the
    same printer reported as [device for HP_LaserJet: ...] it yields the
    record named HP_LaserJet, marked default. *)
Theorem list_status_report :
  list_ (Resolved status_report [])
  = Ok [new_Printer {| name := js "...";
                       connection := js "ipp://host/printers/HP_LaserJet";
                       isDefault := false |}]
  ∧ list_ (Resolved status_devices [])
    = Ok [new_Printer {| name := js "HP_LaserJet";
                         connection := js "ipp://host/printers/HP_LaserJet";
                         isDefault := true |}].
Proof. split; vm_compute; reflexivity. Qed.

(** C10: if some retained line after the first has no colon, the right part
    of its split is [undefined] and [_list], hence [list] and [get], end in a
    type error instead of returning records. *)
Theorem list_line_without_colon_throws (toLowerCase : jsstring → jsstring)
    (stdout : jsstring) (name0 : option jsstring)
    (first line : jsstring) (rest : list jsstring) :
  filter (λ l : jsstring, truthy l) (split_lines stdout) = first :: rest →
  line ∈ rest →
  chr ":" ∉ line →
  _list (Resolved stdout []) = Throw TypeError
  ∧ list_ (Resolved stdout []) = Throw TypeError
  ∧ get toLowerCase name0 (Resolved stdout []) = Throw TypeError.
Proof.
  intros Hlines Hin Hno.
  assert (H : _list (Resolved stdout []) = Throw TypeError).
  { unfold _list. rewrite (split_lines_nil_inv stdout) by (rewrite Hlines; discriminate).
    rewrite Hlines. cbn [truthy orb negb head tail defined]. rewrite bind_Ok.
    eapply mapM_throws; [| exact Hin | by apply list_line_no_colon].
    intros y e'. apply list_line_error. }
  unfold list_, get. rewrite H. repeat split; reflexivity.
Qed.

Lemma list_line_without_colon_throws_witness :
  _list (Resolved status_no_colon []) = Throw TypeError
  ∧ list_ (Resolved status_no_colon []) = Throw TypeError
  ∧ get toLowerCase_ascii None (Resolved status_no_colon []) = Throw TypeError.
Proof.
  apply (list_line_without_colon_throws toLowerCase_ascii status_no_colon None
           (js "system default destination: HP_LaserJet")
           (js "device for HP_LaserJet ipp") [js "device for HP_LaserJet ipp"]).
  - reflexivity.
  - apply list_elem_of_here.
  - refine (bool_decide_unpack _ _). vm_compute. exact I.
Defined.

(** ** Helper lemmas: regular expressions *)

Lemma canon_punct (d c : N) :
  (c < 65 ∨ 90 < c)%N → (c < 97 ∨ 122 < c)%N → canon d = canon c → d = c.
Proof.
  unfold canon. intros H1 H2.
  destruct (N.leb_spec 97 d), (N.leb_spec d 122), (N.leb_spec 97 c), (N.leb_spec c 122);
    cbn; lia.
Qed.

Lemma run_Open r g prev pos s opened closed :
  run (Open g :: r) prev pos s opened closed
  = run r prev pos s ((g, pos) :: opened) closed.
Proof. reflexivity. Qed.

Lemma run_Close r g prev pos s opened closed :
  run (Close g :: r) prev pos s opened closed
  = run r prev pos s opened ((g, pos) :: closed).
Proof. reflexivity. Qed.

Lemma run_Bol r prev pos s opened closed :
  run (Bol :: r) prev pos s opened closed
  = if at_bol prev then run r prev pos s opened closed else None.
Proof. reflexivity. Qed.

Lemma run_Lit r c prev pos s opened closed m :
  run (Lit c :: r) prev pos s opened closed = Some m →
  ∃ d s', s = d :: s' ∧ canon d = canon c
          ∧ run r (Some d) (S pos) s' opened closed = Some m.
Proof.
  cbn [run]. destruct s as [| d s']; [discriminate |].
  destruct (N.eqb_spec (canon d) (canon c)); [| discriminate]. eauto.
Qed.

Lemma run_Letter r prev pos s opened closed m :
  run (Letter :: r) prev pos s opened closed = Some m →
  ∃ d s', s = d :: s' ∧ run r (Some d) (S pos) s' opened closed = Some m.
Proof.
  cbn [run]. destruct s as [| d s']; [discriminate |].
  destruct (is_letter d); [| discriminate]. eauto.
Qed.

(** Whatever a run of [Dots] consumes, the rest of the pattern matches on a
    suffix of the input. *)
Lemma dots_suffix greedy k prev pos s m :
  dots greedy k prev pos s = Some m →
  ∃ prev' pos' s', s' `suffix_of` s ∧ k prev' pos' s' = Some m.
Proof.
  revert prev pos. induction s as [| d s IH]; intros prev pos; cbn [dots].
  - intros H. exists prev, pos, []. done.
  - assert (Hstop : k prev pos (d :: s) = Some m →
      ∃ prev' pos' s', s' `suffix_of` d :: s ∧ k prev' pos' s' = Some m).
    { intros Hk. exists prev, pos, (d :: s). done. }
    assert (Hmore : dots greedy k (Some d) (S pos) s = Some m →
      ∃ prev' pos' s', s' `suffix_of` d :: s ∧ k prev' pos' s' = Some m).
    { intros Hd. destruct (IH _ _ Hd) as (p' & q' & s' & Hs & Hk).
      exists p', q', s'. split; [by apply suffix_cons_r | done]. }
    cbn zeta. destruct (is_line_terminator d); [exact Hstop |].
    destruct greedy.
    + destruct (dots true k (Some d) (S pos) s) eqn:Hx; cbn; auto.
    + destruct (k prev pos (d :: s)) eqn:Hx; cbn; auto.
Qed.

Lemma run_Dots r greedy prev pos s opened closed m :
  run (Dots greedy :: r) prev pos s opened closed = Some m →
  ∃ prev' pos' s', s' `suffix_of` s ∧ run r prev' pos' s' opened closed = Some m.
Proof. cbn [run]. apply dots_suffix. Qed.

Lemma search_suffix r prev pos s m :
  search r prev pos s = Some m →
  ∃ prev' pos' s', s' `suffix_of` s ∧ run r prev' pos' s' [] [] = Some m.
Proof.
  revert prev pos. induction s as [| d s IH]; intros prev pos; cbn [search].
  - destruct (run r prev pos [] [] []) eqn:Hr; [| discriminate].
    intros [= <-]. exists prev, pos, []. done.
  - destruct (run r prev pos (d :: s) [] []) eqn:Hr.
    + intros [= <-]. exists prev, pos, (d :: s). done.
    + intros H. destruct (IH _ _ H) as (p' & q' & s' & Hs & Hr').
      exists p', q', s'. split; [by apply suffix_cons_r | done].
Qed.

Lemma str_includes_suffix (t s' s : jsstring) :
  s' `suffix_of` s → starts_with t s' = true → str_includes t s = true.
Proof.
  intros [k ->] Hst. induction k as [| c k IH].
  - destruct s'; cbn; rewrite Hst; reflexivity.
  - cbn [app str_includes]. rewrite IH. apply orb_true_r.
Qed.

(** A match of [rx_type] needs the text [://] in its input. *)
Lemma rx_type_needs_separator (d : jsstring) :
  str_includes (js "://") d = false → exec rx_type d = None.
Proof.
  intros Hno. unfold exec.
  destruct (search rx_type None 0 d) as [m |] eqn:Hs; [exfalso | reflexivity].
  apply search_suffix in Hs as (p1 & q1 & s1 & Hs1 & Hr).
  unfold rx_type in Hr. rewrite run_Open, run_Bol in Hr.
  destruct (at_bol p1); [| discriminate]. rewrite run_Open in Hr.
  apply run_Letter in Hr as (c & s2 & -> & Hr).
  apply run_Dots in Hr as (p3 & q3 & s3 & Hs3 & Hr). rewrite run_Close in Hr.
  apply run_Lit in Hr as (c1 & s4 & -> & E1 & Hr).
  apply run_Lit in Hr as (c2 & s5 & -> & E2 & Hr).
  apply run_Lit in Hr as (c3 & s6 & -> & E3 & Hr).
  apply canon_punct in E1; [| cbn; lia ..].
  apply canon_punct in E2; [| cbn; lia ..].
  apply canon_punct in E3; [| cbn; lia ..]. subst.
  rewrite (str_includes_suffix (js "://") (chr ":" :: chr "/" :: chr "/" :: s6) d) in Hno;
    [discriminate | | reflexivity].
  etrans; [exact Hs3 |]. etrans; [| exact Hs1]. by apply suffix_cons_r.
Qed.

(** A match of [rx_network] needs two slashes in a row. *)
Lemma rx_network_needs_slashes (d : jsstring) :
  str_includes (js "//") d = false → exec rx_network d = None.
Proof.
  intros Hno. unfold exec.
  destruct (search rx_network None 0 d) as [m |] eqn:Hs; [exfalso | reflexivity].
  apply search_suffix in Hs as (p1 & q1 & s1 & Hs1 & Hr).
  unfold rx_network in Hr.
  apply run_Lit in Hr as (c1 & s2 & -> & E1 & Hr).
  apply run_Lit in Hr as (c2 & s3 & -> & E2 & Hr).
  apply canon_punct in E1; [| cbn; lia ..].
  apply canon_punct in E2; [| cbn; lia ..]. subst.
  rewrite (str_includes_suffix (js "//") (chr "/" :: chr "/" :: s3) d) in Hno;
    [discriminate | exact Hs1 | reflexivity].
Qed.

Lemma group_not_empty (m : nat → option jsstring) (g : nat) (t : jsstring) :
  group m g = Some t → t ≠ [].
Proof. unfold group. destruct (m g) as [[| c u] |]; congruence. Qed.

(** ** Helper lemmas: the discovery loop *)

Lemma get_set_array (answer : answer_obj) (key : jsstring)
    (devices : list InstallablePrinter) :
  get_array (set_array answer key devices) key = Some devices.
Proof.
  unfold get_array, set_array. case_bool_decide; cbn [own proto]; [done |].
  apply lookup_insert_eq.
Qed.

Lemma get_set_array_ne (answer : answer_obj) (key key' : jsstring)
    (devices : list InstallablePrinter) :
  key ≠ key' → get_array (set_array answer key devices) key' = get_array answer key'.
Proof.
  intros Hne. unfold get_array, set_array.
  repeat case_bool_decide; cbn [own proto]; try congruence.
  by apply lookup_insert_ne.
Qed.

Lemma set_set_array (answer : answer_obj) (key : jsstring)
    (devices devices' : list InstallablePrinter) :
  set_array (set_array answer key devices) key devices' = set_array answer key devices'.
Proof.
  unfold set_array. case_bool_decide; cbn [own proto]; [done |].
  by rewrite insert_insert_eq.
Qed.

(** What [answer[key]] evaluates to, told apart by the key. *)
Lemma held_cases (answer : answer_obj) (key : jsstring) (device : InstallablePrinter) :
  held answer key device ↔
  if bool_decide (key = js "__proto__") then inherited answer device
  else filed answer key device.
Proof. unfold held, get_array, inherited, filed. by case_bool_decide. Qed.

Lemma discover_item_ignored (answer : answer_obj) (item : jsstring) :
  ignored item = true → discover_item answer item = Ok answer.
Proof. unfold ignored, type_of, discover_item. intros ->. reflexivity. Qed.

Lemma discover_item_classified (answer : answer_obj)
    (item : jsstring) (params : Params) :
  ignored item = false →
  classify (type_of item) = Ok params →
  discover_item answer item
  = Ok (set_array answer (protocol_of item)
          (default [] (get_array answer (protocol_of item))
           ++ [new_InstallablePrinter params])).
Proof.
  unfold ignored, type_of, protocol_of, discover_item. intros -> ->.
  cbn [negb]. rewrite bind_Ok.
  destruct (get_array answer (to_string (split (chr " ") item !! 0))) as [devices |] eqn:Hk.
  - by rewrite Hk.
  - rewrite get_set_array. cbn [defined]. by rewrite bind_Ok, set_set_array.
Qed.

Lemma classify_decodable (item : jsstring) :
  decodable item = true →
  ∃ params, classify (type_of item) = Ok params ∧ model params ≠ [].
Proof.
  unfold decodable, classify.
  destruct (decodeURIComponent (to_string (type_of item))) as [d | e]; [| discriminate].
  intros _. rewrite bind_Ok. eexists. split; [reflexivity |]. cbn [model].
  destruct (bool_decide _).
  - destruct (exec rx_usb d) as [m |]; cbn; [| discriminate].
    destruct (group m 2) as [g2 |]; cbn; [| discriminate].
    destruct (group m 4) as [g4 |]; cbn; [| discriminate].
    destruct g2; discriminate.
  - destruct (exec rx_network d) as [m |]; cbn; [| discriminate].
    destruct (group m 1) as [g1 |] eqn:Hg; cbn; [| discriminate].
    by apply group_not_empty in Hg.
Qed.

(** The devices held by the loop stay held. *)
Lemma discover_item_keeps answer answer' item key device :
  discover_item answer item = Ok answer' →
  held answer key device → held answer' key device.
Proof.
  intros Hstep (devices & Hk & Hin).
  destruct (ignored item) eqn:Hig.
  - rewrite discover_item_ignored in Hstep by done. injection Hstep as <-.
    by exists devices.
  - destruct (classify (type_of item)) as [params | e] eqn:Hc.
    + rewrite (discover_item_classified _ _ _ Hig Hc) in Hstep. injection Hstep as <-.
      destruct (decide (protocol_of item = key)) as [-> | Hne].
      * eexists. rewrite get_set_array, Hk. split; [reflexivity |].
        cbn. apply elem_of_app. by left.
      * exists devices. by rewrite get_set_array_ne.
    + unfold ignored, type_of in Hig. unfold discover_item in Hstep.
      rewrite Hig in Hstep. cbn [negb] in Hstep.
      unfold type_of in Hc. rewrite Hc in Hstep. discriminate.
Qed.

Lemma foldM_discover_keeps items : ∀ answer answer' key device,
  foldM discover_item answer items = Ok answer' →
  held answer key device → held answer' key device.
Proof.
  induction items as [| item items IH]; intros answer answer' key device; cbn [foldM].
  - by intros [= <-].
  - destruct (discover_item answer item) as [answer1 |] eqn:Hstep; [| discriminate].
    rewrite bind_Ok. intros Hrest Hf. eapply IH; [exact Hrest |].
    eapply discover_item_keeps; eassumption.
Qed.

(** The loop never creates an own property named [__proto__]. *)
Lemma set_array_own_proto (answer : answer_obj) (key : jsstring)
    (devices : list InstallablePrinter) :
  own answer !! js "__proto__" = None →
  own (set_array answer key devices) !! js "__proto__" = None.
Proof.
  intros H. unfold set_array. case_bool_decide; cbn [own]; [exact H |].
  by rewrite lookup_insert_ne.
Qed.

Lemma discover_item_own_proto answer answer' item :
  discover_item answer item = Ok answer' →
  own answer !! js "__proto__" = None → own answer' !! js "__proto__" = None.
Proof.
  intros Hstep H. destruct (ignored item) eqn:Hig.
  - rewrite discover_item_ignored in Hstep by done. by injection Hstep as <-.
  - destruct (classify (type_of item)) as [params | e] eqn:Hc.
    + rewrite (discover_item_classified _ _ _ Hig Hc) in Hstep. injection Hstep as <-.
      by apply set_array_own_proto.
    + unfold ignored, type_of in Hig. unfold discover_item in Hstep.
      rewrite Hig in Hstep. cbn [negb] in Hstep.
      unfold type_of in Hc. rewrite Hc in Hstep. discriminate.
Qed.

Lemma foldM_discover_own_proto items : ∀ answer answer',
  foldM discover_item answer items = Ok answer' →
  own answer !! js "__proto__" = None → own answer' !! js "__proto__" = None.
Proof.
  induction items as [| item items IH]; intros answer answer'; cbn [foldM].
  - by intros [= <-].
  - destruct (discover_item answer item) as [answer1 |] eqn:Hstep; [| discriminate].
    rewrite bind_Ok. intros Hrest H. eapply IH; [exact Hrest |].
    eapply discover_item_own_proto; eassumption.
Qed.

(** On lines that are ignored or decodable the loop runs to its end, and
    every line that is not ignored leaves its device in the array that its
    key refers to. *)
Lemma foldM_discover_total items : ∀ answer,
  forallb (λ item, ignored item || decodable item) items = true →
  ∃ answer', foldM discover_item answer items = Ok answer'
    ∧ ∀ item, item ∈ items → ignored item = false →
        ∃ params, classify (type_of item) = Ok params
          ∧ model params ≠ []
          ∧ held answer' (protocol_of item) (new_InstallablePrinter params).
Proof.
  induction items as [| item items IH]; intros answer; cbn [forallb foldM].
  - intros _. exists answer. split; [reflexivity |]. intros item Hin. inversion Hin.
  - intros [Hitem Hrest]%andb_true_iff.
    destruct (ignored item) eqn:Hig.
    + rewrite discover_item_ignored, bind_Ok by done.
      destruct (IH answer Hrest) as (answer' & Hrun & Hall).
      exists answer'. split; [exact Hrun |].
      intros item' [-> | Hin]%elem_of_cons Hig'; [congruence | by apply Hall].
    + cbn [orb] in Hitem.
      destruct (classify_decodable _ Hitem) as (params & Hc & Hm).
      rewrite (discover_item_classified _ _ _ Hig Hc), bind_Ok.
      edestruct IH as (answer' & Hrun & Hall); [exact Hrest |].
      exists answer'. split; [exact Hrun |].
      intros item' [-> | Hin]%elem_of_cons Hig'; [| by apply Hall].
      exists params. split; [exact Hc |]. split; [exact Hm |].
      eapply foldM_discover_keeps; [exact Hrun |].
      eexists. rewrite get_set_array. split; [reflexivity |].
      apply elem_of_app. right. apply list_elem_of_here.
Qed.

(** C1 (counterexample): the first token of the line is [socket], a member
    of the ignore list, and yet the line leaves a device in the mapping,
    under the key [socket]. *)
Lemma discover_socket_line_kept :
  js "socket" ∈ IGNORED_DEVICES
  ∧ split (chr " ") (js "socket socket://192.168.1.5:9100") !! 0 = Some (js "socket")
  ∧ discover (Resolved (js "socket socket://192.168.1.5:9100") [])
    = Ok {| own :=
              {[ js "socket" :=
                   [new_InstallablePrinter
                      {| uri := Some (js "socket://192.168.1.5:9100");
                         uri_pretty := js "socket://192.168.1.5:9100";
                         protocol := js "socket";
                         model := js "unknown" |}] ]};
            proto := None |}.
Proof.
  split; [| split].
  - refine (bool_decide_unpack _ _). vm_compute. exact I.
  - reflexivity.
  - vm_compute. reflexivity.
Qed.

(** C1 (as amended): a line whose second space-delimited token is a member
    of the ignore list is discarded: the mapping returned by [discover] is
    the one computed from the other lines alone. *)
Theorem discover_skips_ignored_type (stdout stderr : jsstring)
    (before after : list jsstring) (item : jsstring) :
  discover_lines stdout = before ++ item :: after →
  includes IGNORED_DEVICES (split (chr " ") item !! 1) = true →
  discover (Resolved stdout stderr) = foldM discover_item empty_answer (before ++ after).
Proof.
  intros Hlines Hig. unfold discover. rewrite Hlines, !foldM_app.
  destruct (foldM discover_item empty_answer before) as [answer | e]; [| reflexivity].
  rewrite !bind_Ok. cbn [foldM]. by rewrite discover_item_ignored.
Qed.

Lemma discover_skips_ignored_type_witness :
  discover (Resolved devices_report [])
  = foldM discover_item empty_answer
      ([] ++ [js "direct usb://HP/LaserJet%20P1102?serial=0001"]).
Proof.
  apply (discover_skips_ignored_type devices_report [] [] _ (js "network socket"));
    reflexivity.
Defined.

(** C6 (counterexample): the second line carries an escape that cannot be
    decoded; [discover] throws URIError and the device of the first line is
    lost with it. *)
Lemma discover_broken_escape_throws :
  discover (Resolved devices_broken_escape []) = Throw URIError
  ∧ ¬ (∃ answer, discover (Resolved devices_broken_escape []) = Ok answer).
Proof.
  assert (H : discover (Resolved devices_broken_escape []) = Throw URIError)
    by (vm_compute; reflexivity).
  split; [exact H |]. intros [answer Ha]. rewrite H in Ha. discriminate.
Qed.

(** C6 (as amended): when the second token of every line that is not ignored
    can be percent-decoded, [discover] returns its object, and every such
    line has left its device, with a model that is never empty (the
    extracted one, or [unknown] when the pattern of its scheme does not
    match), in the array that is the own property named by the first token
    of the line.  The first token [__proto__] is the exception: it names no
    own property, and the device is in the array that has become the
    prototype of the object. *)
Theorem discover_total_on_decodable (stdout stderr : jsstring) :
  forallb (λ item, ignored item || decodable item) (discover_lines stdout) = true →
  ∃ answer, discover (Resolved stdout stderr) = Ok answer
    ∧ ∀ item, item ∈ discover_lines stdout → ignored item = false →
        ∃ params, classify (type_of item) = Ok params
          ∧ model params ≠ []
          ∧ if bool_decide (protocol_of item = js "__proto__")
            then own answer !! js "__proto__" = None
                 ∧ inherited answer (new_InstallablePrinter params)
            else filed answer (protocol_of item) (new_InstallablePrinter params).
Proof.
  intros Hall. unfold discover.
  destruct (foldM_discover_total _ empty_answer Hall) as (answer & Hrun & Hitems).
  exists answer. split; [exact Hrun |]. intros item Hin Hig.
  destruct (Hitems item Hin Hig) as (params & Hc & Hm & Hheld).
  exists params. split; [exact Hc |]. split; [exact Hm |].
  apply held_cases in Hheld. case_bool_decide; [| exact Hheld].
  split; [| exact Hheld]. by eapply foldM_discover_own_proto.
Qed.

Lemma discover_total_on_decodable_witness :
  ∃ answer,
    discover
      (Resolved (js "__proto__ usb://HP/LaserJet%20P1102?serial=0001" ++ LF
                 ++ devices_report) []) = Ok answer
    ∧ ∀ item,
        item ∈ discover_lines
                 (js "__proto__ usb://HP/LaserJet%20P1102?serial=0001" ++ LF
                  ++ devices_report) →
        ignored item = false →
        ∃ params, classify (type_of item) = Ok params
          ∧ model params ≠ []
          ∧ if bool_decide (protocol_of item = js "__proto__")
            then own answer !! js "__proto__" = None
                 ∧ inherited answer (new_InstallablePrinter params)
            else filed answer (protocol_of item) (new_InstallablePrinter params).
Proof.
  apply (discover_total_on_decodable
           (js "__proto__ usb://HP/LaserJet%20P1102?serial=0001" ++ LF
            ++ devices_report) []).
  reflexivity.
Defined.

(** ** Helper lemmas: the driver catalog and the matcher *)

Lemma split_not_nil (sep : N) (s : jsstring) : split sep s ≠ [].
Proof.
  destruct s as [| c s]; cbn [split]; [discriminate |].
  destruct (c =? sep)%N; [discriminate |]. destruct (split sep s); discriminate.
Qed.

Lemma read_drivers_step (p0 p1 p2 p3 p4 : jsstring) (lines : list jsstring) :
  read_drivers (p0 :: p1 :: p2 :: p3 :: p4 :: lines)
  = (d ← field p0; l ← field p1; m ← field p2; i ← field p3;
     drivers ← read_drivers (p4 :: lines);
     Ok ({| driver := d; lang := l; makeAndModel := m; id := i |} :: drivers)).
Proof. reflexivity. Qed.

(** The loop yields one record per four lines as long as a fifth line
    follows: the number of records is the number of lines less one,
    divided by four. *)
Lemma read_drivers_length (n : nat) : ∀ (lines : list jsstring) (drivers : list DriverRecord),
  length lines ≤ n →
  read_drivers lines = Ok drivers → length drivers = (length lines - 1) / 4.
Proof.
  induction n as [| n IH]; intros lines drivers Hn.
  - destruct lines; [| cbn in Hn; lia]. by intros [= <-].
  - destruct lines as [| p0 [| p1 [| p2 [| p3 [| p4 lines']]]]];
      try (by intros [= <-]).
    rewrite read_drivers_step.
    destruct (field p0); [| discriminate]. rewrite bind_Ok.
    destruct (field p1); [| discriminate]. rewrite bind_Ok.
    destruct (field p2); [| discriminate]. rewrite bind_Ok.
    destruct (field p3); [| discriminate]. rewrite bind_Ok.
    destruct (read_drivers (p4 :: lines')) as [ds |] eqn:Hrest;
      [| discriminate].
    rewrite bind_Ok. intros [= <-].
    apply IH in Hrest; [| cbn in *; lia].
    cbn [length] in *. rewrite Hrest.
    replace (S (S (S (S (S (length lines'))))) - 1) with (S (length lines') - 1 + 1 * 4) by lia.
    rewrite Nat.div_add by lia. lia.
Qed.

Lemma slice0_length (array : list jsval) (maxsize : nat) :
  length (slice0 array (Z.of_nat maxsize)) ≤ maxsize.
Proof.
  unfold slice0. rewrite length_take.
  destruct (Z.ltb_spec (Z.of_nat (length array)) (Z.of_nat maxsize)).
  - destruct (Z.ltb_spec (Z.of_nat (length array)) 0); lia.
  - destruct (Z.ltb_spec (Z.of_nat maxsize) 0); lia.
Qed.

Section Matcher.

Variable fuzzy_filter : jsstring → list (nat * DriverRecord) → list (nat * DriverRecord).

Lemma find_by_slugs_length drivers slugs maxsize :
  length (find_by_slugs fuzzy_filter drivers slugs maxsize) ≤ maxsize.
Proof.
  unfold find_by_slugs. destruct (map _ slugs); [cbn; lia | apply slice0_length].
Qed.

Lemma slug_loop_no_hits drivers tokens index :
  (∀ i, 1 ≤ i ≤ index →
     fuzzy_filter (join (chr " ") (take i tokens)) drivers = []) →
  snd (slug_loop fuzzy_filter drivers tokens index) = None.
Proof.
  induction index as [| index IH]; intros Hno; [reflexivity |].
  cbn [slug_loop]. rewrite Hno by lia.
  destruct (slug_loop fuzzy_filter drivers tokens index) as [log value] eqn:Hl.
  cbn [snd] in *. apply IH. intros i Hi. apply Hno. lia.
Qed.

Lemma match_slug_no_hits drivers slug :
  no_window_hits fuzzy_filter drivers slug = true →
  snd (match_slug fuzzy_filter drivers slug) = None.
Proof.
  unfold no_window_hits, match_slug. intros Hno. apply slug_loop_no_hits.
  intros i Hi. rewrite forallb_forall in Hno.
  specialize (Hno i). rewrite in_seq in Hno.
  destruct (fuzzy_filter _ drivers); [reflexivity |].
  discriminate Hno. lia.
Qed.

End Matcher.

Lemma join_split (sep : N) (s : jsstring) : join sep (split sep s) = s.
Proof.
  induction s as [| c s IH]; [reflexivity |]. cbn [split].
  pose proof (split_not_nil sep s) as Hne.
  destruct (N.eqb_spec c sep) as [-> | _].
  - destruct (split sep s) as [| p ps]; [done |]. cbn [join app] in *. by rewrite IH.
  - destruct (split sep s) as [| p ps]; [done |].
    destruct ps; cbn [join app] in *; by rewrite <- IH.
Qed.

(** ** Driver catalog and driver matching *)

(** The text that follows the last LF counts as one more line, empty when
    the output ends with LF, and the loop stops when four lines are left.
    So a last group whose fourth line is not ended by LF is not read, where
    the same group ended by LF is. *)
Lemma findDrivers_four_lines_lost
    (fuzzy_filter : jsstring → list (nat * DriverRecord) → list (nat * DriverRecord)) :
  length (split 10%N catalog_four_lines) = 4
  ∧ findDrivers fuzzy_filter NoSlugs None (Resolved catalog_four_lines []) = Ok []
  ∧ findDrivers fuzzy_filter NoSlugs None (Resolved catalog_brother [])
    = Ok [Driver (0, brother)].
Proof. repeat split; vm_compute; reflexivity. Qed.

(** C7 (the code on a slug without hits): when no window of the only slug has
    a hit, the callback returns [undefined] for it, [_.flatten] keeps that
    value, and [findDrivers] returns an array holding [undefined] instead of
    an empty array. *)
Theorem findDrivers_no_hit_yields_undefined
    (fuzzy_filter : jsstring → list (nat * DriverRecord) → list (nat * DriverRecord))
    (stdout stderr slug : jsstring) (drivers : list DriverRecord) :
  read_drivers (split 10%N stdout) = Ok drivers →
  no_window_hits fuzzy_filter (objects drivers) slug = true →
  findDrivers fuzzy_filter (Slugs [slug]) None (Resolved stdout stderr) = Ok [Undefined].
Proof.
  intros Hread Hno. unfold findDrivers. rewrite Hread, bind_Ok.
  cbn [supplied negb arrify]. unfold find_by_slugs. cbn [map].
  rewrite (match_slug_no_hits _ _ _ Hno). reflexivity.
Qed.

Lemma findDrivers_no_hit_yields_undefined_witness :
  findDrivers fuzzy_originals (Slugs [js "zzz"]) None (Resolved catalog_brother [])
  = Ok [Undefined].
Proof.
  apply (findDrivers_no_hit_yields_undefined fuzzy_originals catalog_brother []
           (js "zzz") [brother]); reflexivity.
Defined.

(** C8: when the pattern made of all the tokens of a slug has a hit, the
    value for the slug is exactly the hit list of that pattern, in the order
    of the matcher, and the matcher was called once, with that pattern: no
    shorter window was tried.  The pattern of all the tokens is the slug. *)
Theorem full_window_wins
    (fuzzy_filter : jsstring → list (nat * DriverRecord) → list (nat * DriverRecord))
    (drivers : list (nat * DriverRecord)) (slug : jsstring) :
  fuzzy_filter (join (chr " ") (split (chr " ") slug)) drivers ≠ [] →
  join (chr " ") (split (chr " ") slug) = slug
  ∧ match_slug fuzzy_filter drivers slug = ([slug], Some (fuzzy_filter slug drivers)).
Proof.
  intros Hhit. pose proof (join_split (chr " ") slug) as Hjs.
  split; [exact Hjs |]. unfold match_slug.
  pose proof (split_not_nil (chr " ") slug) as Hne.
  destruct (split (chr " ") slug) as [| t ts] eqn:Hsp; [done |].
  cbn [length slug_loop]. rewrite take_ge by (cbn; lia). rewrite Hjs in *.
  destruct (fuzzy_filter slug drivers); [done | reflexivity].
Qed.

Lemma full_window_wins_witness :
  join (chr " ") (split (chr " ") (js "Brother HL-5270DN")) = js "Brother HL-5270DN"
  ∧ match_slug fuzzy_originals [(0, brother)] (js "Brother HL-5270DN")
    = ([js "Brother HL-5270DN"],
       Some (fuzzy_originals (js "Brother HL-5270DN") [(0, brother)])).
Proof.
  apply (full_window_wins fuzzy_originals [(0, brother)] (js "Brother HL-5270DN")).
  vm_compute. discriminate.
Defined.

(** C9 (counterexample): the empty string is a slug that is falsy: the
    branch of the omitted slugs is taken, and the whole catalog of two
    drivers is returned where [maxsize] is 1. *)
Lemma findDrivers_empty_slug_uncapped :
  findDrivers fuzzy_originals (OneSlug []) (Some 1) (Resolved catalog_two [])
  = Ok [Driver (0, brother); Driver (1, laserjet_driver)]
  ∧ ¬ (∃ found,
         findDrivers fuzzy_originals (OneSlug []) (Some 1) (Resolved catalog_two [])
         = Ok found
         ∧ length found ≤ 1).
Proof.
  assert (H : findDrivers fuzzy_originals (OneSlug []) (Some 1) (Resolved catalog_two [])
              = Ok [Driver (0, brother); Driver (1, laserjet_driver)])
    by (vm_compute; reflexivity).
  split; [exact H |]. intros (found & Hf & Hlen). rewrite H in Hf.
  injection Hf as <-. cbn in Hlen. lia.
Qed.

(** C9 (as amended): when the catalog can be read, [findDrivers] returns.
    When the slugs are an array, or a string that is not empty, the result
    has at most [maxsize] elements, 10 when [maxsize] is omitted.  When they
    are the empty string, as when they are omitted, the result is the whole
    catalog, whatever [maxsize] is. *)
Theorem findDrivers_capped
    (fuzzy_filter : jsstring → list (nat * DriverRecord) → list (nat * DriverRecord))
    (stdout stderr : jsstring) (slugs : slugs_arg) (maxsize : option nat)
    (drivers : list DriverRecord) :
  read_drivers (split 10%N stdout) = Ok drivers →
  ∃ found, findDrivers fuzzy_filter slugs maxsize (Resolved stdout stderr) = Ok found
           ∧ match slugs with
             | Slugs _ | OneSlug (_ :: _) => length found ≤ default 10 maxsize
             | OneSlug [] | NoSlugs => found = map Driver (objects drivers)
             end.
Proof.
  intros Hread. unfold findDrivers. rewrite Hread, bind_Ok.
  destruct slugs as [| [| c slug] | slugs]; cbn [supplied truthy negb];
    (eexists; split; [reflexivity |]); try reflexivity; apply find_by_slugs_length.
Qed.

Lemma findDrivers_capped_witness :
  ∃ found,
    findDrivers fuzzy_originals (Slugs [js "Brother"; js "HL-5270DN"; js "zzz"]) (Some 1)
      (Resolved catalog_brother []) = Ok found
    ∧ length found ≤ default 10 (Some 1).
Proof.
  apply (findDrivers_capped fuzzy_originals catalog_brother []
           (Slugs [js "Brother"; js "HL-5270DN"; js "zzz"]) (Some 1) [brother]);
    reflexivity.
Defined.

(** * Further properties *)

(** ** Helper lemmas: how the patterns match *)

Lemma prev_after_cons (prev : option N) (c : N) (a : jsstring) :
  prev_after prev (c :: a) = prev_after (Some c) a.
Proof. unfold prev_after. rewrite last_cons. by destruct (last a). Qed.

(** A greedy run goes through a prefix without line terminators when the
    match succeeds beyond it. *)
Lemma dots_greedy_skip k (a b : jsstring) m : ∀ prev pos,
  one_line a = true →
  dots true k (prev_after prev a) (pos + length a) b = Some m →
  dots true k prev pos (a ++ b) = Some m.
Proof.
  induction a as [| c a IH]; intros prev pos Hline Hb.
  - cbn in *. by rewrite Nat.add_0_r in Hb.
  - cbn [one_line forallb] in Hline. apply andb_true_iff in Hline as [Hc Ha].
    cbn [app dots]. apply negb_true_iff in Hc. rewrite Hc.
    rewrite (IH (Some c) (S pos)); [reflexivity | exact Ha |].
    rewrite <- (prev_after_cons prev). cbn [length] in Hb.
    by replace (S pos + length a) with (pos + S (length a)) by lia.
Qed.

(** A run fails when the rest of the pattern fails on every suffix. *)
Lemma dots_none greedy k (s : jsstring) :
  (∀ prev pos s', s' `suffix_of` s → k prev pos s' = None) →
  ∀ prev pos, dots greedy k prev pos s = None.
Proof.
  induction s as [| c s IH]; intros Hk prev pos; cbn [dots].
  - by apply Hk.
  - rewrite (Hk prev pos (c :: s)) by done.
    destruct (is_line_terminator c); [reflexivity |].
    rewrite IH; [by destruct greedy |].
    intros p q s' Hs. apply Hk. by apply suffix_cons_r.
Qed.

(** A lazy run goes through a prefix without line terminators when the rest
    of the pattern fails at every position inside it. *)
Lemma dots_lazy_skip k (a b : jsstring) : ∀ prev pos,
  one_line a = true →
  (∀ prev' pos' a', a' ≠ [] → a' `suffix_of` a → k prev' pos' (a' ++ b) = None) →
  dots false k prev pos (a ++ b)
  = dots false k (prev_after prev a) (pos + length a) b.
Proof.
  induction a as [| c a IH]; intros prev pos Hline Hk.
  - cbn. by rewrite Nat.add_0_r.
  - cbn [one_line forallb] in Hline. apply andb_true_iff in Hline as [Hc Ha].
    cbn [app dots]. apply negb_true_iff in Hc. rewrite Hc.
    pose proof (Hk prev pos (c :: a) ltac:(done) ltac:(done)) as H0.
    cbn [app] in H0. rewrite H0. cbn [from_option].
    rewrite (IH (Some c) (S pos)); [| exact Ha |].
    + rewrite <- (prev_after_cons prev). cbn [length].
      by replace (S pos + length a) with (pos + S (length a)) by lia.
    + intros p q a' Hne Hs. apply Hk; [done | by apply suffix_cons_r].
Qed.

(** The search goes through a prefix at no position of which the pattern
    matches. *)
Lemma search_skip r (a b : jsstring) : ∀ prev pos,
  (∀ prev' pos' a', a' ≠ [] → a' `suffix_of` a → run r prev' pos' (a' ++ b) [] [] = None) →
  search r prev pos (a ++ b) = search r (prev_after prev a) (pos + length a) b.
Proof.
  induction a as [| c a IH]; intros prev pos Hk.
  - cbn. by rewrite Nat.add_0_r.
  - pose proof (Hk prev pos (c :: a) ltac:(done) ltac:(done)) as H0.
    cbn [app] in H0. cbn [app search]. rewrite H0.
    rewrite (IH (Some c) (S pos)).
    + rewrite <- (prev_after_cons prev). cbn [length].
      by replace (S pos + length a) with (pos + S (length a)) by lia.
    + intros p q a' Hne Hs. apply Hk; [done | by apply suffix_cons_r].
Qed.

(** A literal fails on a string that does not begin with it. *)
Lemma run_Lit_head_ne r c prev pos (s : jsstring) opened closed :
  (c < 65 ∨ 90 < c)%N → (c < 97 ∨ 122 < c)%N →
  head s ≠ Some c → run (Lit c :: r) prev pos s opened closed = None.
Proof.
  intros H1 H2 Hne. cbn [run]. destruct s as [| d s]; [reflexivity |].
  destruct (N.eqb_spec (canon d) (canon c)) as [E |]; [| reflexivity].
  apply canon_punct in E; [| done ..]. subst. by destruct Hne.
Qed.

Lemma without_head (c : N) (s' s : jsstring) :
  without c s = true → s' `suffix_of` s → head s' ≠ Some c.
Proof.
  intros Hw [k ->]. unfold without in Hw. rewrite forallb_app in Hw.
  apply andb_true_iff in Hw as [_ Hw]. destruct s' as [| d s']; [done |].
  cbn in Hw. apply andb_true_iff in Hw as [Hd _]. apply negb_true_iff in Hd.
  apply N.eqb_neq in Hd. cbn. congruence.
Qed.

(** The continuation of [rx_type] after its group 2 needs the text [://]. *)
Lemma type_tail_starts prev pos (s : jsstring) opened closed m :
  run [Close 2; Lit (chr ":"); Lit (chr "/"); Lit (chr "/"); Close 1]
    prev pos s opened closed = Some m →
  starts_with (js "://") s = true.
Proof.
  rewrite run_Close. intros Hr.
  apply run_Lit in Hr as (c1 & s1 & -> & E1 & Hr).
  apply run_Lit in Hr as (c2 & s2 & -> & E2 & Hr).
  apply run_Lit in Hr as (c3 & s3 & -> & E3 & Hr).
  apply canon_punct in E1; [| cbn; lia ..].
  apply canon_punct in E2; [| cbn; lia ..].
  apply canon_punct in E3; [| cbn; lia ..]. by subst.
Qed.

Lemma is_letter_range (c : N) :
  is_letter c = true → (65 ≤ c ∧ c ≤ 90 ∨ 97 ≤ c ∧ c ≤ 122)%N.
Proof.
  unfold is_letter, canon.
  destruct (N.leb_spec 97 c), (N.leb_spec c 122); cbn [andb];
    intros [H1 H2]%andb_true_iff; apply N.leb_le in H1, H2; lia.
Qed.

Lemma is_letter_not_terminator (c : N) :
  is_letter c = true → is_line_terminator c = false.
Proof.
  intros Hc%is_letter_range. unfold is_line_terminator.
  destruct (N.eqb_spec c 10), (N.eqb_spec c 13), (N.eqb_spec c 8232), (N.eqb_spec c 8233);
    try lia; reflexivity.
Qed.

Lemma letters_one_line (s : jsstring) : letters s = true → one_line s = true.
Proof.
  unfold letters, one_line. induction s as [| c s IH]; [done |]. cbn [forallb].
  intros [Hc Hs]%andb_true_iff.
  by rewrite (IH Hs), (is_letter_not_terminator _ Hc).
Qed.

Lemma run_Letter_ok r d prev pos (s : jsstring) opened closed :
  is_letter d = true →
  run (Letter :: r) prev pos (d :: s) opened closed
  = run r (Some d) (S pos) s opened closed.
Proof. intros H. cbn [run]. by rewrite H. Qed.

Lemma run_Lit_ok r c prev pos (s : jsstring) opened closed :
  run (Lit c :: r) prev pos (c :: s) opened closed
  = run r (Some c) (S pos) s opened closed.
Proof. cbn [run]. by rewrite N.eqb_refl. Qed.

Lemma run_Dots_eq r greedy prev pos (s : jsstring) opened closed :
  run (Dots greedy :: r) prev pos s opened closed
  = dots greedy (λ prev pos s, run r prev pos s opened closed) prev pos s.
Proof. reflexivity. Qed.

(** A greedy run stops before [d] when nothing matches further on. *)
Lemma dots_greedy_stop k d prev pos (s : jsstring) :
  dots true k (Some d) (S pos) s = None →
  dots true k prev pos (d :: s) = k prev pos (d :: s).
Proof. intros H. cbn [dots]. rewrite H. by destruct (is_line_terminator d). Qed.

Lemma search_here r prev pos (s : jsstring) m :
  run r prev pos s [] [] = Some m → search r prev pos s = Some m.
Proof. intros H. destruct s; cbn [search]; by rewrite H. Qed.

(** Reading a group off the marks of a match. *)
Lemma group_of_search r (s : jsstring) opened closed g a b (t : jsstring) :
  search r None 0 s = Some (opened, closed) →
  mark g opened = Some a → mark g closed = Some b →
  take (b - a) (drop a s) = t → t ≠ [] →
  (m ← exec r s; group m g) = Some t.
Proof.
  intros Hs Ha Hb Ht Hne. unfold exec. rewrite Hs. cbn [mbind option_bind].
  unfold group. rewrite Ha, Hb. cbn [mbind option_bind]. rewrite Ht.
  by destruct t.
Qed.

(** On [scheme://tail], where the scheme is made of letters and the tail
    holds no further [://], group 2 of [rx_type] is the scheme. *)
Lemma rx_type_scheme (c0 : N) (scheme tail : jsstring) :
  letters (c0 :: scheme) = true →
  str_includes (js "://") tail = false →
  (m ← exec rx_type ((c0 :: scheme) ++ js "://" ++ tail); group m 2)
  = Some (c0 :: scheme).
Proof.
  intros Hl Hno. pose proof (letters_one_line _ Hl) as Hline.
  cbn [letters forallb] in Hl. apply andb_true_iff in Hl as [Hc0 Hsch].
  cbn [one_line forallb] in Hline. apply andb_true_iff in Hline as [_ Hline].
  assert (Hrun : run rx_type None 0 ((c0 :: scheme) ++ js "://" ++ tail) [] []
                 = Some ([(2, 0); (1, 0)],
                         [(1, S (S (S (1 + length scheme)))); (2, 1 + length scheme)])).
  { unfold rx_type. rewrite run_Open, run_Bol. cbn [at_bol]. rewrite run_Open.
    cbn [app]. rewrite run_Letter_ok by exact Hc0. rewrite run_Dots_eq.
    apply dots_greedy_skip; [exact Hline |].
    change (js "://" ++ tail) with (chr ":" :: chr "/" :: chr "/" :: tail).
    rewrite dots_greedy_stop.
    - reflexivity.
    - apply dots_none. intros p q s' Hs.
      destruct (run _ p q s' _ _) eqn:Hr; [exfalso | reflexivity].
      apply type_tail_starts in Hr.
      destruct Hs as [[| x1 [| x2 k]] Hk]; cbn [app] in Hk.
      + subst s'. discriminate Hr.
      + injection Hk as _ <-. discriminate Hr.
      + injection Hk as _ _ ->.
        rewrite (str_includes_suffix (js "://") s' (k ++ s')) in Hno;
          [discriminate | by apply suffix_app_r | exact Hr]. }
  eapply group_of_search; [exact (search_here _ _ _ _ _ Hrun) | reflexivity ..| | done].
  rewrite Nat.sub_0_r. exact (take_app_length (c0 :: scheme) _).
Qed.

Lemma exec_groups r (s : jsstring) opened closed :
  search r None 0 s = Some (opened, closed) →
  ∃ m, exec r s = Some m
       ∧ ∀ g a b, mark g opened = Some a → mark g closed = Some b →
           m g = Some (take (b - a) (drop a s)).
Proof.
  intros Hs. unfold exec. rewrite Hs. eexists. split; [reflexivity |].
  intros g a b Ha Hb. cbn beta. by rewrite Ha, Hb.
Qed.

Lemma group_Some (m : nat → option jsstring) (g : nat) (t : jsstring) :
  m g = Some t → t ≠ [] → group m g = Some t.
Proof. unfold group. intros -> Hne. by destruct t. Qed.

Lemma without_app (c : N) (a b : jsstring) :
  without c a = true → without c b = true → without c (a ++ b) = true.
Proof. unfold without. rewrite forallb_app. by intros -> ->. Qed.

(** A lazy run stops at once where the rest of the pattern matches. *)
Lemma dots_lazy_stop k prev pos (s : jsstring) m :
  k prev pos s = Some m → dots false k prev pos s = Some m.
Proof.
  intros H. destruct s as [| d s]; cbn [dots]; rewrite H; [reflexivity |].
  by destruct (is_line_terminator d).
Qed.

Lemma dots_greedy_all k (a : jsstring) m prev pos :
  one_line a = true →
  k (prev_after prev a) (pos + length a) [] = Some m →
  dots true k prev pos a = Some m.
Proof.
  intros Ha Hk. rewrite <- (app_nil_r a) at 1. by apply dots_greedy_skip.
Qed.

(** On [usb://v/p?q] the groups 2 and 4 of [rx_usb] are [v] and [p]. *)
Lemma rx_usb_groups (v p q : jsstring) :
  one_line v = true → one_line p = true → one_line q = true →
  without (chr "/") p = true → without (chr "/") q = true →
  without (chr "?") q = true →
  v ≠ [] → p ≠ [] →
  (m ← exec rx_usb (js "usb://" ++ v ++ chr "/" :: p ++ chr "?" :: q);
   g2 ← group m 2; g4 ← group m 4; Some (g2, g4)) = Some (v, p).
Proof.
  intros Hv Hp Hq Hsp Hsq Hqq Hv0 Hp0.
  set (d := js "usb://" ++ v ++ chr "/" :: p ++ chr "?" :: q).
  assert (Hrun : run rx_usb None 0 d [] []
    = Some ([(6, S (S (6 + length v) + length p)); (5, S (6 + length v) + length p);
             (4, S (6 + length v)); (3, 6 + length v); (2, 6); (1, 0)],
            [(6, S (S (6 + length v) + length p) + length q);
             (5, S (S (6 + length v) + length p)); (4, S (6 + length v) + length p);
             (3, S (6 + length v)); (2, 6 + length v); (1, 6)])).
  { unfold rx_usb, d.
    change (js "usb://" ++ ?x)
      with (chr "u" :: chr "s" :: chr "b" :: chr ":" :: chr "/" :: chr "/" :: x).
    rewrite run_Open, !run_Lit_ok, run_Close, run_Open, run_Dots_eq.
    apply dots_greedy_skip; [exact Hv |]. rewrite dots_greedy_stop.
    2: { apply dots_none. intros pr po s' Hs. cbn beta.
         rewrite run_Close, run_Open. apply run_Lit_head_ne; [cbn; lia .. |].
         eapply without_head; [| exact Hs].
         apply without_app; [exact Hsp |]. cbn [without forallb]. exact Hsq. }
    cbn beta. rewrite run_Close, run_Open, run_Lit_ok, run_Close, run_Open, run_Dots_eq.
    apply dots_greedy_skip; [exact Hp |]. rewrite dots_greedy_stop.
    2: { apply dots_none. intros pr po s' Hs. cbn beta.
         rewrite run_Close, run_Open. apply run_Lit_head_ne; [cbn; lia .. |].
         eapply without_head; [exact Hqq | exact Hs]. }
    cbn beta. rewrite run_Close, run_Open, run_Lit_ok, run_Close, run_Open, run_Dots_eq.
    apply dots_greedy_all; [exact Hq |]. reflexivity. }
  destruct (exec_groups _ _ _ _ (search_here _ _ _ _ _ Hrun)) as (m & -> & Hm).
  cbn [mbind option_bind].
  assert (H2 : m 2 = Some v).
  { rewrite (Hm 2 _ _ eq_refl eq_refl). unfold d. cbn [snd].
    replace (6 + length v - 6) with (length v) by lia.
    rewrite drop_app_length' by reflexivity. by rewrite take_app_length. }
  assert (H4 : m 4 = Some p).
  { rewrite (Hm 4 _ _ eq_refl eq_refl). cbn [snd].
    replace (S (6 + length v) + length p - S (6 + length v)) with (length p) by lia.
    replace d with ((js "usb://" ++ v ++ [chr "/"]) ++ p ++ chr "?" :: q)
      by (unfold d; by rewrite <- !app_assoc).
    rewrite drop_app_length' by (rewrite !length_app; cbn; lia).
    by rewrite take_app_length. }
  by rewrite (group_Some _ _ _ H2 Hv0), (group_Some _ _ _ H4 Hp0).
Qed.

(** On [pre//name._rest], where [pre] has no slash and [name] stays on one
    line and does not contain [._], group 1 of [rx_network] is [name]. *)
Lemma rx_network_name (pre nm rest : jsstring) :
  without (chr "/") pre = true →
  one_line nm = true →
  str_includes (js "._") nm = false →
  nm ≠ [] →
  (m ← exec rx_network (pre ++ js "//" ++ nm ++ js "._" ++ rest); group m 1) = Some nm.
Proof.
  intros Hpre Hline Hno Hne.
  set (b := js "//" ++ nm ++ js "._" ++ rest).
  assert (Hrun : run rx_network (prev_after None pre) (0 + length pre) b [] []
    = Some ([(1, S (S (0 + length pre)))],
            [(1, S (S (0 + length pre)) + length nm)])).
  { unfold rx_network, b.
    change (js "//" ++ ?x) with (chr "/" :: chr "/" :: x).
    change (js "._" ++ rest) with (chr "." :: chr "_" :: rest).
    rewrite !run_Lit_ok, run_Open, run_Dots_eq, dots_lazy_skip; [| exact Hline |].
    - apply dots_lazy_stop. reflexivity.
    - intros pr po a' Ha' Hs. cbn beta. rewrite run_Close.
      destruct (run _ pr po (a' ++ _) _ _) eqn:Hr; [exfalso | reflexivity].
      apply run_Lit in Hr as (c1 & s1 & E & E1 & Hr).
      apply run_Lit in Hr as (c2 & s2 & -> & E2 & Hr).
      apply canon_punct in E1; [| cbn; lia ..].
      apply canon_punct in E2; [| cbn; lia ..]. subst c1 c2.
      destruct a' as [| x [| y a'']]; [done | |]; cbn [app] in E.
      + discriminate E.
      + injection E as -> -> _.
        rewrite (str_includes_suffix (js "._") (chr "." :: chr "_" :: a'') nm) in Hno;
          [discriminate | exact Hs | reflexivity]. }
  assert (Hs : search rx_network None 0 (pre ++ b)
               = Some ([(1, S (S (0 + length pre)))],
                       [(1, S (S (0 + length pre)) + length nm)])).
  { rewrite search_skip; [by apply search_here |].
    intros pr po a' Ha' Hs. apply run_Lit_head_ne; [cbn; lia .. |].
    destruct a' as [| x a'']; [done |].
    apply (without_head _ (x :: a'') pre Hpre Hs). }
  eapply group_of_search; [exact Hs | reflexivity | reflexivity | | exact Hne].
  cbn [snd]. replace (S (S (0 + length pre)) + length nm - S (S (0 + length pre)))
    with (length nm) by lia.
  replace (pre ++ b) with ((pre ++ js "//") ++ nm ++ js "._" ++ rest)
    by (unfold b; by rewrite <- !app_assoc).
  rewrite drop_app_length' by (rewrite length_app; cbn; lia).
  by rewrite take_app_length.
Qed.

Lemma without_cons (c d : N) (w : jsstring) :
  without c (d :: w) = negb (d =? c)%N && without c w.
Proof. reflexivity. Qed.

Lemma starts_with_cons (c d : N) (t s : jsstring) :
  starts_with (c :: t) (d :: s) = (c =? d)%N && starts_with t s.
Proof. reflexivity. Qed.

Lemma str_includes_cons (t : jsstring) (d : N) (s : jsstring) :
  str_includes t (d :: s) = starts_with t (d :: s) || str_includes t s.
Proof. reflexivity. Qed.

Lemma starts_with_slash (t w : jsstring) :
  without (chr "/") w = true → starts_with (chr "/" :: t) w = false.
Proof.
  destruct w as [| e w]; [reflexivity |]. rewrite without_cons, starts_with_cons.
  intros [He _]%andb_true_iff. apply negb_true_iff in He.
  rewrite N.eqb_sym in He. by rewrite He.
Qed.

Lemma without_no_separator (w : jsstring) :
  without (chr "/") w = true → str_includes (js "://") w = false.
Proof.
  induction w as [| d w IH]; [reflexivity |]. rewrite without_cons.
  intros [_ Hw]%andb_true_iff. rewrite str_includes_cons, (IH Hw), orb_false_r.
  change (js "://") with (chr ":" :: chr "/" :: js "/").
  by rewrite starts_with_cons, (starts_with_slash _ w Hw), andb_false_r.
Qed.

(** No [://] in [v/w] when neither part has a slash. *)
Lemma no_separator_across (v w : jsstring) :
  without (chr "/") v = true → without (chr "/") w = true →
  str_includes (js "://") (v ++ chr "/" :: w) = false.
Proof.
  intros Hv Hw. induction v as [| c v IH]; cbn [app]; rewrite str_includes_cons.
  - rewrite (without_no_separator w Hw). reflexivity.
  - rewrite without_cons in Hv. apply andb_true_iff in Hv as [_ Hv].
    rewrite (IH Hv), orb_false_r.
    change (js "://") with (chr ":" :: chr "/" :: [chr "/"]).
    rewrite starts_with_cons.
    destruct v as [| e v]; cbn [app]; rewrite starts_with_cons.
    + by rewrite (starts_with_slash [] w Hw), !andb_false_r.
    + rewrite without_cons in Hv. apply andb_true_iff in Hv as [He _].
      apply negb_true_iff in He. rewrite N.eqb_sym in He.
      by rewrite He, andb_false_r.
Qed.

(** ** The classification of device identifiers *)

(** X1: a USB identifier [usb://vendor/product?query] whose decoded parts stay
    on one line, with no slash in them and no question mark in the query, is
    classified as protocol [usb] with model [vendor product], whatever
    percent-escapes the raw identifier carries. *)
Theorem classify_usb_model (raw v p q : jsstring) :
  decodeURIComponent raw = Ok (js "usb://" ++ v ++ chr "/" :: p ++ chr "?" :: q) →
  one_line v && one_line p && one_line q = true →
  without (chr "/") v && without (chr "/") p && without (chr "/") q = true →
  without (chr "?") q = true →
  v ≠ [] → p ≠ [] →
  classify (Some raw)
  = Ok {| uri := Some raw;
          uri_pretty := js "usb://" ++ v ++ chr "/" :: p ++ chr "?" :: q;
          protocol := js "usb";
          model := v ++ js " " ++ p |}.
Proof.
  intros Hdec [[Hv Hp]%andb_true_iff Hq]%andb_true_iff
    [[Hsv Hsp]%andb_true_iff Hsq]%andb_true_iff Hqq Hv0 Hp0.
  assert (Htail : str_includes (js "://") (v ++ chr "/" :: p ++ chr "?" :: q) = false).
  { apply no_separator_across; [exact Hsv |].
    apply without_app; [exact Hsp |]. cbn [without forallb]. exact Hsq. }
  pose proof (rx_type_scheme (chr "u") (js "sb") _ eq_refl Htail) as Ht.
  change ((chr "u" :: js "sb") ++ js "://" ++ ?x) with (js "usb://" ++ x) in Ht.
  unfold classify. change (to_string (Some raw)) with raw. rewrite Hdec, bind_Ok, Ht.
  cbn [default from_option id]. rewrite bool_decide_eq_true_2 by reflexivity.
  by rewrite rx_usb_groups.
Qed.

Lemma classify_usb_model_witness :
  classify (Some (js "usb://HP/LaserJet%20P1102?serial=0001"))
  = Ok {| uri := Some (js "usb://HP/LaserJet%20P1102?serial=0001");
          uri_pretty := js "usb://" ++ js "HP" ++ chr "/" :: js "LaserJet P1102"
                        ++ chr "?" :: js "serial=0001";
          protocol := js "usb";
          model := js "HP" ++ js " " ++ js "LaserJet P1102" |}.
Proof.
  apply (classify_usb_model (js "usb://HP/LaserJet%20P1102?serial=0001")
           (js "HP") (js "LaserJet P1102") (js "serial=0001"));
    [reflexivity | reflexivity | reflexivity | reflexivity | discriminate | discriminate].
Defined.

(** X2: a network identifier [scheme://name._rest], where the scheme is made
    of letters and is not [usb], the name stays on one line, is not empty and
    does not contain [._], and no further [://] follows the scheme, is
    classified as protocol [scheme] with model [name]. *)
Theorem classify_network_model (raw : jsstring) (c0 : N) (scheme nm rest : jsstring) :
  decodeURIComponent raw = Ok ((c0 :: scheme) ++ js "://" ++ nm ++ js "._" ++ rest) →
  letters (c0 :: scheme) = true →
  c0 :: scheme ≠ js "usb" →
  str_includes (js "://") (nm ++ js "._" ++ rest) = false →
  one_line nm = true →
  str_includes (js "._") nm = false →
  nm ≠ [] →
  classify (Some raw)
  = Ok {| uri := Some raw;
          uri_pretty := (c0 :: scheme) ++ js "://" ++ nm ++ js "._" ++ rest;
          protocol := c0 :: scheme;
          model := nm |}.
Proof.
  intros Hdec Hl Husb Htail Hline Hno Hne.
  unfold classify. change (to_string (Some raw)) with raw.
  rewrite Hdec, bind_Ok, (rx_type_scheme _ _ _ Hl Htail).
  cbn [default from_option id]. rewrite bool_decide_eq_false_2 by exact Husb.
  assert (Hpre : without (chr "/") ((c0 :: scheme) ++ js ":") = true).
  { apply without_app; [| reflexivity]. unfold without, letters in *.
    apply forallb_forall. intros x Hx. rewrite forallb_forall in Hl.
    apply Hl, is_letter_range in Hx. apply negb_true_iff, N.eqb_neq. cbn. lia. }
  pose proof (rx_network_name _ nm rest Hpre Hline Hno Hne) as Hn.
  replace (((c0 :: scheme) ++ js ":") ++ js "//" ++ nm ++ js "._" ++ rest)
    with ((c0 :: scheme) ++ js "://" ++ nm ++ js "._" ++ rest) in Hn
    by (by rewrite <- app_assoc).
  by rewrite Hn.
Qed.

Lemma classify_network_model_witness :
  classify
    (Some (js "dnssd://Brother%20HL-5270DN%20series._pdl-datastream._tcp.local./?bidi"))
  = Ok {| uri := Some (js "dnssd://Brother%20HL-5270DN%20series._pdl-datastream._tcp.local./?bidi");
          uri_pretty := (chr "d" :: js "nssd") ++ js "://" ++ js "Brother HL-5270DN series"
                        ++ js "._" ++ js "pdl-datastream._tcp.local./?bidi";
          protocol := chr "d" :: js "nssd";
          model := js "Brother HL-5270DN series" |}.
Proof.
  apply (classify_network_model
           (js "dnssd://Brother%20HL-5270DN%20series._pdl-datastream._tcp.local./?bidi")
           (chr "d") (js "nssd") (js "Brother HL-5270DN series")
           (js "pdl-datastream._tcp.local./?bidi"));
    [reflexivity | reflexivity | discriminate | reflexivity | reflexivity | reflexivity
    | discriminate].
Defined.

(** ** Identifiers without a scheme *)

(** Where the first two slashes in a row of a text are, every occurrence of
    two slashes begins there or later. *)
Lemma first_slashes_suffix (pre tail x : jsstring) :
  str_includes (js "//") (pre ++ js "/") = false →
  (chr "/" :: chr "/" :: x) `suffix_of` (pre ++ js "//" ++ tail) →
  x `suffix_of` tail.
Proof.
  induction pre as [| c pre IH]; intros Hfirst Hs.
  - destruct Hs as [k Hk]. change ([] ++ js "//" ++ tail) with (chr "/" :: chr "/" :: tail) in Hk.
    destruct k as [| c1 [| c2 k]]; cbn [app] in Hk.
    + injection Hk as ->. done.
    + injection Hk as _ ->. by apply suffix_cons_r.
    + injection Hk as _ _ ->. exists (k ++ js "//"). by rewrite <- app_assoc.
  - cbn [app] in Hfirst, Hs. rewrite str_includes_cons in Hfirst.
    apply orb_false_iff in Hfirst as [Hhere Hlater].
    apply suffix_cons_inv in Hs as [Hwhole | Hs]; [exfalso | by apply IH].
    injection Hwhole as <- Hrest.
    destruct pre as [| d pre]; cbn [app] in Hrest, Hhere.
    + discriminate Hhere.
    + injection Hrest as <- _. discriminate Hhere.
Qed.

(** A match of [rx_network] needs the text [._] after the first two slashes
    in a row. *)
Lemma rx_network_needs_marker (pre tail : jsstring) :
  str_includes (js "//") (pre ++ js "/") = false →
  str_includes (js "._") tail = false →
  exec rx_network (pre ++ js "//" ++ tail) = None.
Proof.
  intros Hfirst Hno. unfold exec.
  destruct (search rx_network None 0 (pre ++ js "//" ++ tail)) as [m |] eqn:Hs;
    [exfalso | reflexivity].
  apply search_suffix in Hs as (p1 & q1 & s1 & Hs1 & Hr).
  unfold rx_network in Hr.
  apply run_Lit in Hr as (c1 & s2 & -> & E1 & Hr).
  apply run_Lit in Hr as (c2 & s3 & -> & E2 & Hr).
  apply canon_punct in E1; [| cbn; lia ..].
  apply canon_punct in E2; [| cbn; lia ..]. subst.
  rewrite run_Open in Hr.
  apply run_Dots in Hr as (p4 & q4 & s4 & Hs4 & Hr). rewrite run_Close in Hr.
  apply run_Lit in Hr as (c5 & s5 & -> & E5 & Hr).
  apply run_Lit in Hr as (c6 & s6 & -> & E6 & Hr).
  apply canon_punct in E5; [| cbn; lia ..].
  apply canon_punct in E6; [| cbn; lia ..]. subst.
  pose proof (first_slashes_suffix _ _ _ Hfirst Hs1) as Hs3.
  rewrite (str_includes_suffix (js "._") (chr "." :: chr "_" :: s6) tail) in Hno;
    [discriminate | by etrans | reflexivity].
Qed.

(** On [pre//name._rest], where the two slashes are the first two in a row
    and [name] stays on one line and does not contain [._], the match of
    [rx_network] begins at these slashes and group 1 is [name]. *)
Lemma rx_network_first (pre nm rest : jsstring) :
  str_includes (js "//") (pre ++ js "/") = false →
  one_line nm = true →
  str_includes (js "._") nm = false →
  (m ← exec rx_network (pre ++ js "//" ++ nm ++ js "._" ++ rest); group m 1)
  = match nm with
    | [] => None
    | _ :: _ => Some nm
    end.
Proof.
  intros Hfirst Hline Hno.
  set (b := js "//" ++ nm ++ js "._" ++ rest).
  assert (Hrun : run rx_network (prev_after None pre) (0 + length pre) b [] []
    = Some ([(1, S (S (0 + length pre)))],
            [(1, S (S (0 + length pre)) + length nm)])).
  { unfold rx_network, b.
    change (js "//" ++ ?x) with (chr "/" :: chr "/" :: x).
    change (js "._" ++ rest) with (chr "." :: chr "_" :: rest).
    rewrite !run_Lit_ok, run_Open, run_Dots_eq, dots_lazy_skip; [| exact Hline |].
    - apply dots_lazy_stop. reflexivity.
    - intros pr po a' Ha' Hs. cbn beta. rewrite run_Close.
      destruct (run _ pr po (a' ++ _) _ _) eqn:Hr; [exfalso | reflexivity].
      apply run_Lit in Hr as (c1 & s1 & E & E1 & Hr).
      apply run_Lit in Hr as (c2 & s2 & -> & E2 & Hr).
      apply canon_punct in E1; [| cbn; lia ..].
      apply canon_punct in E2; [| cbn; lia ..]. subst c1 c2.
      destruct a' as [| x [| y a'']]; [done | |]; cbn [app] in E.
      + discriminate E.
      + injection E as -> -> _.
        rewrite (str_includes_suffix (js "._") (chr "." :: chr "_" :: a'') nm) in Hno;
          [discriminate | exact Hs | reflexivity]. }
  assert (Hs : search rx_network None 0 (pre ++ b)
               = Some ([(1, S (S (0 + length pre)))],
                       [(1, S (S (0 + length pre)) + length nm)])).
  { rewrite search_skip; [by apply search_here |].
    intros pr po a' Ha' Hs.
    destruct (run rx_network pr po (a' ++ b) [] []) eqn:Hr; [exfalso | reflexivity].
    unfold rx_network in Hr.
    apply run_Lit in Hr as (c1 & s1 & E & E1 & Hr).
    apply run_Lit in Hr as (c2 & s2 & -> & E2 & Hr).
    apply canon_punct in E1; [| cbn; lia ..].
    apply canon_punct in E2; [| cbn; lia ..]. subst c1 c2.
    rewrite (str_includes_suffix (js "//") (a' ++ js "/") (pre ++ js "/")) in Hfirst;
      [discriminate | by apply suffix_app |].
    destruct a' as [| x [| y a'']]; [done | |]; cbn [app] in E.
    + by injection E as ->.
    + by injection E as -> ->. }
  unfold exec. rewrite Hs. cbn [mbind option_bind]. unfold group, mark.
  cbn [find fst snd bool_decide decide_rel fmap option_fmap option_map mbind option_bind].
  rewrite bool_decide_eq_true_2 by done.
  cbn [fmap option_fmap option_map mbind option_bind snd].
  replace (S (S (0 + length pre)) + length nm - S (S (0 + length pre)))
    with (length nm) by lia.
  replace (pre ++ b) with ((pre ++ js "//") ++ nm ++ js "._" ++ rest)
    by (unfold b; by rewrite <- !app_assoc).
  rewrite drop_app_length' by (rewrite length_app; cbn; lia).
  rewrite take_app_length. by destruct nm.
Qed.

(** C4 (counterexample): three identifiers with no [://] in them.  The
    escape of the first cannot be decoded, and the classification throws.
    The second has two slashes and the text [._], and its model is the text
    between them.  The third has its colon written as an escape; it is the
    decoded text that is searched, so a scheme and a model are found. *)
Lemma classify_no_scheme_refuted :
  (str_includes (js "://") (js "%") = false
   ∧ classify (Some (js "%")) = Throw URIError)
  ∧ (str_includes (js "://") (js "//a._b") = false
     ∧ classify (Some (js "//a._b"))
       = Ok {| uri := Some (js "//a._b"); uri_pretty := js "//a._b";
               protocol := []; model := js "a" |})
  ∧ (str_includes (js "://") (js "usb%3A//HP/LJ?x") = false
     ∧ classify (Some (js "usb%3A//HP/LJ?x"))
       = Ok {| uri := Some (js "usb%3A//HP/LJ?x"); uri_pretty := js "usb://HP/LJ?x";
               protocol := js "usb"; model := js "HP LJ" |}).
Proof. repeat split; vm_compute; reflexivity. Qed.

(** C4 (as amended): for every identifier whose percent-decoding succeeds
    and gives a text without [://], the classification succeeds; [uri] is
    the identifier, [uri_pretty] the decoded text, and the protocol is the
    empty scheme.  The model is [unknown] when the decoded text has no two
    slashes in a row, and when the text [._] does not follow the first two.
    When the first two slashes are followed by a text that stays on one line
    and holds no [._], and then by [._], the model is that text, [unknown]
    if it is empty. *)
Theorem classify_no_scheme (raw decoded : jsstring) :
  decodeURIComponent raw = Ok decoded →
  str_includes (js "://") decoded = false →
  ∃ m, classify (Some raw)
       = Ok {| uri := Some raw; uri_pretty := decoded; protocol := []; model := m |}
       ∧ (str_includes (js "//") decoded = false → m = js "unknown")
       ∧ ∀ pre tail,
           decoded = pre ++ js "//" ++ tail →
           str_includes (js "//") (pre ++ js "/") = false →
           (str_includes (js "._") tail = false → m = js "unknown")
           ∧ ∀ nm rest,
               tail = nm ++ js "._" ++ rest →
               one_line nm = true →
               str_includes (js "._") nm = false →
               m = match nm with
                   | [] => js "unknown"
                   | _ :: _ => nm
                   end.
Proof.
  intros Hdec Hno. unfold classify. change (to_string (Some raw)) with raw.
  rewrite Hdec, bind_Ok, (rx_type_needs_separator _ Hno).
  cbn [mbind option_bind default]. rewrite bool_decide_eq_false_2 by discriminate.
  eexists. split; [reflexivity |]. split.
  - intros Hno2. by rewrite (rx_network_needs_slashes _ Hno2).
  - intros pre tail -> Hfirst. split.
    + intros Hnm. by rewrite (rx_network_needs_marker _ _ Hfirst Hnm).
    + intros nm rest -> Hline Hnm.
      rewrite (rx_network_first _ _ rest Hfirst Hline Hnm). by destruct nm.
Qed.

Lemma classify_no_scheme_witness :
  ∃ m, classify (Some (js "//HP%20LaserJet._pdl"))
       = Ok {| uri := Some (js "//HP%20LaserJet._pdl");
               uri_pretty := js "//HP LaserJet._pdl";
               protocol := []; model := m |}
       ∧ (str_includes (js "//") (js "//HP LaserJet._pdl") = false → m = js "unknown")
       ∧ ∀ pre tail,
           js "//HP LaserJet._pdl" = pre ++ js "//" ++ tail →
           str_includes (js "//") (pre ++ js "/") = false →
           (str_includes (js "._") tail = false → m = js "unknown")
           ∧ ∀ nm rest,
               tail = nm ++ js "._" ++ rest →
               one_line nm = true →
               str_includes (js "._") nm = false →
               m = match nm with
                   | [] => js "unknown"
                   | _ :: _ => nm
                   end.
Proof.
  apply (classify_no_scheme (js "//HP%20LaserJet._pdl") (js "//HP LaserJet._pdl"));
    reflexivity.
Defined.

(** ** The object returned by [discover] *)

Lemma classify_uri (type : option jsstring) (params : Params) :
  classify type = Ok params → uri params = type.
Proof.
  unfold classify. destruct (decodeURIComponent (to_string type)); [| discriminate].
  rewrite bind_Ok. by intros [= <-].
Qed.

Lemma discover_item_throws answer item e :
  discover_item answer item = Throw e →
  ignored item = false ∧ classify (type_of item) = Throw e.
Proof.
  destruct (ignored item) eqn:Hig.
  - by rewrite discover_item_ignored.
  - destruct (classify (type_of item)) as [params | e'] eqn:Hc.
    + by rewrite (discover_item_classified _ _ _ Hig Hc).
    + unfold ignored, type_of in Hig. unfold type_of in Hc. unfold discover_item.
      rewrite Hig, Hc. cbn [negb]. by intros [= <-].
Qed.

(** The array that [answer[key]] refers to after the loop: what was there
    before, followed by the devices of the lines filed under [key], in the
    order of the lines. *)
Lemma foldM_discover_lookup (key : jsstring) items :
  ∀ answer0 answer : answer_obj,
  foldM discover_item answer0 items = Ok answer →
  ∃ ps, mapM (λ item, classify (type_of item)) (lines_of_key key items) = Ok ps
        ∧ get_array answer key
          = match ps with
            | [] => get_array answer0 key
            | _ :: _ =>
                Some (default [] (get_array answer0 key) ++ map new_InstallablePrinter ps)
            end.
Proof.
  induction items as [| item items IH]; intros answer0 answer; cbn [foldM].
  - intros [= <-]. by exists [].
  - destruct (discover_item answer0 item) as [answer1 |] eqn:Hstep; [| discriminate].
    rewrite bind_Ok. intros Hrest. destruct (IH _ _ Hrest) as (ps & Hps & Hlook).
    cbn [lines_of_key List.filter]. fold (lines_of_key key items).
    destruct (ignored item) eqn:Hig; cbn [negb andb].
    + rewrite discover_item_ignored in Hstep by done. injection Hstep as <-.
      by exists ps.
    + destruct (classify (type_of item)) as [params | e] eqn:Hc.
      2: { unfold ignored, type_of in Hig. unfold type_of in Hc.
           unfold discover_item in Hstep. rewrite Hig, Hc in Hstep. discriminate. }
      rewrite (discover_item_classified _ _ _ Hig Hc) in Hstep. injection Hstep as <-.
      case_bool_decide as Hkey.
      * exists (params :: ps). rewrite mapM_cons, Hc, bind_Ok, Hps. split; [done |].
        rewrite Hlook, Hkey, get_set_array. cbn [default from_option id map].
        destruct ps; [done |]. unfold Datatypes.id. by rewrite <- app_assoc.
      * exists ps. split; [done |]. rewrite Hlook, get_set_array_ne by done. done.
Qed.

(** X3: in the object returned by [discover], the own property named by a
    key is the array of the devices of the lines that are not ignored and
    whose first token is the key, in the order of the lines; a key without
    such a line names no own property.  The key [__proto__] never names an
    own property: the devices of its lines make up the array that has become
    the prototype of the object, and without such a line the prototype is
    left as it was. *)
Theorem discover_groups (stdout stderr key : jsstring) (answer : answer_obj) :
  discover (Resolved stdout stderr) = Ok answer →
  ∃ ps, mapM (λ item, classify (type_of item))
          (lines_of_key key (discover_lines stdout)) = Ok ps
        ∧ let devices :=
            match ps with
            | [] => None
            | _ :: _ => Some (map new_InstallablePrinter ps)
            end in
          if bool_decide (key = js "__proto__")
          then own answer !! key = None ∧ proto answer = devices
          else own answer !! key = devices.
Proof.
  intros H. destruct (foldM_discover_lookup key _ _ _ H) as (ps & Hps & Hlook).
  exists ps. split; [exact Hps |]. cbn zeta.
  unfold get_array in Hlook. case_bool_decide as Hkey.
  - split.
    + rewrite Hkey. by eapply foldM_discover_own_proto.
    + rewrite Hlook. by destruct ps.
  - rewrite Hlook. cbn [empty_answer own]. rewrite lookup_empty. by destruct ps.
Qed.

Lemma discover_groups_witness :
  ∃ ps, mapM (λ item, classify (type_of item))
          (lines_of_key (js "direct") (discover_lines devices_report)) = Ok ps
        ∧ let devices :=
            match ps with
            | [] => None
            | _ :: _ => Some (map new_InstallablePrinter ps)
            end in
          if bool_decide (js "direct" = js "__proto__")
          then own {| own := {[ js "direct" := [new_InstallablePrinter laserjet] ]};
                      proto := None |} !! js "direct" = None
               ∧ proto {| own := {[ js "direct" := [new_InstallablePrinter laserjet] ]};
                          proto := None |} = devices
          else own {| own := {[ js "direct" := [new_InstallablePrinter laserjet] ]};
                      proto := None |} !! js "direct" = devices.
Proof.
  apply (discover_groups devices_report [] (js "direct")). vm_compute. reflexivity.
Defined.

Lemma mapM_Ok_elem {A B} (f : A → result B) (xs : list A) (ys : list B) (y : B) :
  mapM f xs = Ok ys → y ∈ ys → ∃ x, x ∈ xs ∧ f x = Ok y.
Proof.
  revert ys. induction xs as [| x xs IH]; intros ys.
  - intros [= <-] Hin. inversion Hin.
  - rewrite mapM_cons. destruct (f x) as [y0 |] eqn:Hx; [| discriminate].
    rewrite bind_Ok. destruct (mapM f xs) as [ys0 |]; [| discriminate].
    rewrite bind_Ok. intros [= <-] [-> | Hin]%elem_of_cons.
    + exists x. split; [by left | done].
    + destruct (IH _ eq_refl Hin) as (x' & Hx' & Hf). exists x'. split; [by right | done].
Qed.

(** X4: every device in the object returned by [discover], be it in an
    array that is an own property or in the array that has become the
    prototype, comes from a line of the output: its key (for the prototype,
    [__proto__]) is the first token of the line, its [uri] is the second
    token, verbatim, and that token is not in the ignore list. *)
Theorem discover_filed_origin (stdout stderr key : jsstring)
    (answer : answer_obj) (params : Params) :
  discover (Resolved stdout stderr) = Ok answer →
  filed answer key (new_InstallablePrinter params)
  ∨ key = js "__proto__" ∧ inherited answer (new_InstallablePrinter params) →
  ∃ item, item ∈ discover_lines stdout
          ∧ protocol_of item = key
          ∧ uri params = type_of item
          ∧ includes IGNORED_DEVICES (uri params) = false
          ∧ classify (type_of item) = Ok params.
Proof.
  intros H Hdev.
  assert (Hheld : held answer key (new_InstallablePrinter params)).
  { apply held_cases. destruct Hdev as [(devices & Hk & Hin) | [-> Hin]].
    - case_bool_decide as Hkey; [| by exists devices].
      rewrite Hkey, (foldM_discover_own_proto _ _ _ H) in Hk; [discriminate | done].
    - by rewrite bool_decide_eq_true_2. }
  destruct Hheld as (devices & Hk & Hin).
  destruct (foldM_discover_lookup key _ _ _ H) as (ps & Hps & Hlook).
  assert (Hempty : get_array empty_answer key = None).
  { unfold get_array. by case_bool_decide. }
  rewrite Hk, Hempty in Hlook. destruct ps as [| p0 ps0]; [discriminate |].
  injection Hlook as ->.
  change (new_InstallablePrinter params ∈ map new_InstallablePrinter (p0 :: ps0)) in Hin.
  apply list_elem_of_In, in_map_iff in Hin as (p & [= ->] & Hp%list_elem_of_In).
  destruct (mapM_Ok_elem _ _ _ _ Hps Hp) as (item & Hitem & Hc).
  apply list_elem_of_In, filter_In in Hitem as [Hitem Hsel].
  apply andb_true_iff in Hsel as [Hig Hkey]. apply negb_true_iff in Hig.
  apply bool_decide_eq_true in Hkey. exists item.
  rewrite (classify_uri _ _ Hc). repeat split; try done.
  by apply list_elem_of_In.
Qed.

Lemma discover_filed_origin_witness :
  ∃ item, item ∈ discover_lines devices_report
          ∧ protocol_of item = js "direct"
          ∧ uri laserjet = type_of item
          ∧ includes IGNORED_DEVICES (uri laserjet) = false
          ∧ classify (type_of item) = Ok laserjet.
Proof.
  apply (discover_filed_origin devices_report [] (js "direct")
           {| own := {[ js "direct" := [new_InstallablePrinter laserjet] ]};
              proto := None |} laserjet).
  - vm_compute. reflexivity.
  - left. eexists. split; [apply lookup_singleton_eq | apply list_elem_of_here].
Defined.

(** ** When [discover] throws *)

Lemma fmap_Throw {A B} (f : A → B) (r : result A) (e : error) :
  f <$> r = Throw e → r = Throw e.
Proof. destruct r; [discriminate |]. by intros [= ->]. Qed.

Lemma emit_Throw octets k e :
  emit octets k = Throw e → e = URIError ∨ k = Throw e.
Proof.
  unfold emit. destruct (utf8_value octets); [| intros [= <-]; by left].
  intros H%fmap_Throw. by right.
Qed.

(** The only exception of [decodeURIComponent] is URIError. *)
Lemma decodeURIComponent_error (n : nat) : ∀ (s : jsstring) (e : error),
  length s ≤ n → decodeURIComponent s = Throw e → e = URIError.
Proof.
  induction n as [| n IH]; intros s e Hn.
  - destruct s; [discriminate | cbn in Hn; lia].
  - destruct s as [| c s1]; [discriminate |]. cbn [decodeURIComponent].
    assert (Hrec : ∀ s', length s' ≤ length s1 →
              ∀ e', decodeURIComponent s' = Throw e' → e' = URIError).
    { intros s' Hs' e'. apply IH. cbn in Hn. lia. }
    repeat (case_match; subst; try (intros [= <-]; reflexivity));
      try (intros Hf%fmap_Throw; revert Hf; apply Hrec; cbn; lia);
      intros [-> | Hf]%emit_Throw; try reflexivity;
      revert Hf; apply Hrec; cbn; lia.
Qed.

Lemma classify_error (type : option jsstring) (e : error) :
  classify type = Throw e → e = URIError.
Proof.
  unfold classify. destruct (decodeURIComponent (to_string type)) as [d | e'] eqn:Hd.
  - discriminate.
  - intros [= <-]. by eapply decodeURIComponent_error.
Qed.

Lemma classify_not_decodable (item : jsstring) :
  decodable item = false → classify (type_of item) = Throw URIError.
Proof.
  unfold decodable, classify.
  destruct (decodeURIComponent (to_string (type_of item))) as [d | e] eqn:Hd;
    [discriminate |].
  intros _. by rewrite (decodeURIComponent_error _ _ _ (Nat.le_refl _) Hd).
Qed.

Lemma foldM_discover_throws items : ∀ (answer : answer_obj) e,
  foldM discover_item answer items = Throw e ↔
  e = URIError
  ∧ existsb (λ item, negb (ignored item) && negb (decodable item)) items = true.
Proof.
  induction items as [| item items IH]; intros answer e; cbn [foldM existsb].
  - split; [discriminate | by intros [_ ?]].
  - destruct (ignored item) eqn:Hig; cbn [negb andb orb].
    + rewrite discover_item_ignored, bind_Ok by done. apply IH.
    + destruct (decodable item) eqn:Hdec; cbn [negb orb].
      * destruct (classify_decodable _ Hdec) as (params & Hc & _).
        rewrite (discover_item_classified _ _ _ Hig Hc), bind_Ok. apply IH.
      * pose proof (classify_not_decodable _ Hdec) as Hc.
        assert (Hstep : discover_item answer item = Throw URIError).
        { unfold ignored, type_of in Hig. unfold type_of in Hc.
          unfold discover_item. by rewrite Hig, Hc. }
        rewrite Hstep. split; [by intros [= <-] | by intros [-> _]].
Qed.

(** X5: on a resolved command, the only exception of [discover] is URIError,
    and it is thrown exactly when some line that is not ignored has a second
    token that cannot be percent-decoded. *)
Theorem discover_throws_iff (stdout stderr : jsstring) (e : error) :
  discover (Resolved stdout stderr) = Throw e ↔
  e = URIError
  ∧ existsb (λ item, negb (ignored item) && negb (decodable item))
      (discover_lines stdout) = true.
Proof. unfold discover. apply foldM_discover_throws. Qed.

(** ** Lines without escapes *)

Lemma decodeURIComponent_plain (s : jsstring) :
  without (chr "%") s = true → decodeURIComponent s = Ok s.
Proof.
  induction s as [| c s IH]; [reflexivity |]. rewrite without_cons.
  intros [Hc Hs]%andb_true_iff. cbn [decodeURIComponent].
  change (chr "%") with 37%N in Hc. rewrite Hc, (IH Hs). reflexivity.
Qed.

Lemma cons_head_elem (c : N) (ps : list jsstring) (p : jsstring) (x : N) :
  p ∈ cons_head c ps → x ∈ p → x = c ∨ ∃ p', p' ∈ ps ∧ x ∈ p'.
Proof.
  destruct ps as [| p0 ps]; cbn [cons_head].
  - intros ->%list_elem_of_singleton ->%list_elem_of_singleton. by left.
  - intros [-> | Hp]%elem_of_cons Hx.
    + apply elem_of_cons in Hx as [-> | Hx]; [by left |].
      right. exists p0. split; [by left | done].
    + right. exists p. split; [by right | done].
Qed.

(** The pieces of a split hold only characters of the string. *)
Lemma split_elem (sep : N) (s p : jsstring) (x : N) :
  p ∈ split sep s → x ∈ p → x ∈ s.
Proof.
  revert p. induction s as [| c s IH]; intros p; cbn [split].
  - intros ->%list_elem_of_singleton Hx. inversion Hx.
  - destruct (c =? sep)%N.
    + intros [-> | Hp]%elem_of_cons Hx; [inversion Hx |]. right. by eapply IH.
    + fold (cons_head c (split sep s)). intros Hp Hx.
      destruct (cons_head_elem _ _ _ _ Hp Hx) as [-> | (p' & Hp' & Hx')]; [by left |].
      right. by eapply IH.
Qed.

Lemma without_elem (c : N) (s : jsstring) : without c s = true ↔ c ∉ s.
Proof.
  induction s as [| d s IH]; [split; [intros _ H; inversion H | done] |].
  rewrite without_cons, andb_true_iff, IH, negb_true_iff, N.eqb_neq, not_elem_of_cons.
  split; (intros [Hd Hs]; split; [congruence | exact Hs]).
Qed.

Lemma decodable_plain (item : jsstring) :
  without (chr "%") item = true → decodable item = true.
Proof.
  intros Hitem. unfold decodable. rewrite decodeURIComponent_plain; [reflexivity |].
  unfold type_of. destruct (split (chr " ") item !! 1) as [t |] eqn:Ht; [| reflexivity].
  cbn [to_string default from_option]. apply without_elem. intros Hx.
  apply without_elem in Hitem. apply Hitem.
  eapply split_elem; [| exact Hx]. by eapply list_elem_of_lookup_2.
Qed.

(** X6: when no line of the output holds a percent sign, [discover] returns a
    mapping: nothing can go wrong in the classification. *)
Theorem discover_total_without_percent (stdout stderr : jsstring) :
  forallb (without (chr "%")) (discover_lines stdout) = true →
  ∃ answer, discover (Resolved stdout stderr) = Ok answer.
Proof.
  intros Hall. unfold discover.
  destruct (foldM_discover_total (discover_lines stdout) empty_answer) as (answer & H & _);
    [| by exists answer].
  apply forallb_forall. intros item Hin. rewrite forallb_forall in Hall.
  by rewrite (decodable_plain _ (Hall _ Hin)), orb_true_r.
Qed.

Lemma discover_total_without_percent_witness :
  ∃ answer,
    discover (Resolved (js "network socket" ++ LF ++ js "direct usb://HP/LaserJet?serial=1") [])
    = Ok answer.
Proof.
  apply (discover_total_without_percent
           (js "network socket" ++ LF ++ js "direct usb://HP/LaserJet?serial=1") []).
  reflexivity.
Defined.

(** ** The lines of the printer listing *)

Lemma split_colon_raw_not_nil (in_group : bool) (s : jsstring) :
  split_colon_raw in_group s ≠ [].
Proof.
  destruct s as [| c s], in_group; cbn [split_colon_raw]; try discriminate.
  - destruct (is_line_terminator c); [discriminate |].
    by destruct (split_colon_raw true s).
  - destruct (c =? chr ":")%N; [discriminate |].
    by destruct (split_colon_raw false s).
Qed.

(** The first piece ends at the first colon. *)
Lemma split_colon_raw_first (label rest : jsstring) :
  chr ":" ∉ label →
  split_colon_raw false (label ++ chr ":" :: rest) = label :: split_colon_raw true rest.
Proof.
  induction label as [| c label IH]; intros Hno; cbn [app split_colon_raw].
  - by rewrite N.eqb_refl.
  - apply not_elem_of_cons in Hno as [Hc Hl]. apply N.eqb_neq in Hc.
    rewrite N.eqb_sym in Hc. rewrite Hc, (IH Hl). reflexivity.
Qed.

(** The group takes the rest of the line. *)
Lemma split_colon_raw_group (conn : jsstring) :
  one_line conn = true → split_colon_raw true conn = [conn; []].
Proof.
  induction conn as [| c conn IH]; [reflexivity |]. cbn [one_line forallb].
  intros [Hc Hl]%andb_true_iff. apply negb_true_iff in Hc.
  cbn [split_colon_raw]. by rewrite Hc, (IH Hl).
Qed.

Lemma list_line_at_colon (defaults label rest : jsstring) :
  chr ":" ∉ label →
  at_index (split_colon (label ++ chr ":" :: rest)) 0 = Some label
  ∧ at_index (split_colon (label ++ chr ":" :: rest)) 1
    = match rest with
      | c :: _ =>
          if is_line_terminator c then None
          else head (split_colon_raw true rest)
      | [] => None
      end.
Proof.
  intros Hno. unfold split_colon. rewrite (split_colon_raw_first _ _ Hno).
  split; [reflexivity |]. destruct rest as [| c rest]; [reflexivity |].
  cbn [split_colon_raw]. destruct (is_line_terminator c); [reflexivity |].
  pose proof (split_colon_raw_not_nil true rest) as Hne.
  by destruct (split_colon_raw true rest).
Qed.

(** X7: a line of the listing is accepted exactly when its first colon is
    followed by a character that is not a line terminator; any other line
    (no colon, or nothing after the first colon) makes the parse throw. *)
Theorem list_line_ok_iff (defaults line : jsstring) :
  (∃ item, list_line defaults line = Ok item) ↔
  (∃ label c rest, line = label ++ (chr ":" :: c :: rest)
                   ∧ (chr ":" ∉ label) ∧ is_line_terminator c = false).
Proof.
  split.
  - intros [item Hitem]. destruct (decide (chr ":" ∈ line)) as [Hin | Hno].
    2: { by rewrite list_line_no_colon in Hitem. }
    apply list_elem_of_split_l in Hin as (label & rest & -> & Hno).
    destruct (list_line_at_colon defaults label rest Hno) as [H0 H1].
    unfold list_line in Hitem. rewrite H0, H1 in Hitem. cbn [defined] in Hitem.
    rewrite bind_Ok in Hitem.
    destruct rest as [| c rest]; [discriminate |].
    destruct (is_line_terminator c) eqn:Hc; [discriminate |].
    by exists label, c, rest.
  - intros (label & c & rest & -> & Hno & Hc).
    destruct (list_line_at_colon defaults label (c :: rest) Hno) as [H0 H1].
    unfold list_line. rewrite H0, H1, Hc. cbn [defined]. rewrite bind_Ok.
    pose proof (split_colon_raw_not_nil true (c :: rest)) as Hne.
    destruct (split_colon_raw true (c :: rest)); [done |]. cbn [head defined].
    rewrite bind_Ok. by eexists.
Qed.

Lemma lastIndexOf_from_absent (c : N) (s : jsstring) : ∀ i found,
  c ∉ s → lastIndexOf_from c s i found = found.
Proof.
  induction s as [| d s IH]; intros i found Hno; [reflexivity |].
  apply not_elem_of_cons in Hno as [Hd Hs]. cbn [lastIndexOf_from].
  apply N.eqb_neq in Hd. rewrite N.eqb_sym in Hd. rewrite Hd. by apply IH.
Qed.

Lemma lastIndexOf_from_last (c : N) (a b : jsstring) : ∀ i found,
  c ∉ b → lastIndexOf_from c (a ++ c :: b) i found = (i + Z.of_nat (length a))%Z.
Proof.
  induction a as [| d a IH]; intros i found Hno; cbn [app lastIndexOf_from length].
  - rewrite N.eqb_refl, lastIndexOf_from_absent by done. lia.
  - rewrite IH by done. lia.
Qed.

(** Where [lastIndexOf] points, no further [c] follows. *)
Lemma lastIndexOf_from_spec (c : N) (s : jsstring) : ∀ i found,
  (found < i)%Z →
  (lastIndexOf_from c s i found = found ∧ c ∉ s)
  ∨ ((i ≤ lastIndexOf_from c s i found)%Z
     ∧ c ∉ drop (Z.to_nat (lastIndexOf_from c s i found - i) + 1) s).
Proof.
  induction s as [| d s IH]; intros i found Hlt; cbn [lastIndexOf_from].
  - left. split; [reflexivity | apply not_elem_of_nil].
  - destruct (N.eqb_spec d c) as [-> | Hne].
    + destruct (IH (i + 1)%Z i ltac:(lia)) as [[Hr Hs] | [Hr Hs]].
      * right. rewrite Hr. split; [lia |].
        by replace (Z.to_nat (i - i) + 1) with 1 by lia.
      * right. split; [lia |].
        set (r := lastIndexOf_from c s (i + 1) i) in *.
        by replace (Z.to_nat (r - i) + 1) with (S (Z.to_nat (r - (i + 1)) + 1)) by lia.
    + destruct (IH (i + 1)%Z found ltac:(lia)) as [[Hr Hs] | [Hr Hs]].
      * left. split; [exact Hr |]. apply not_elem_of_cons. split; [congruence | exact Hs].
      * right. split; [lia |].
        set (r := lastIndexOf_from c s (i + 1) found) in *.
        by replace (Z.to_nat (r - i) + 1) with (S (Z.to_nat (r - (i + 1)) + 1)) by lia.
Qed.

Lemma after_last_without (c : N) (s : jsstring) :
  c ∉ substring (lastIndexOf c s + 1) s.
Proof.
  unfold substring, lastIndexOf.
  destruct (lastIndexOf_from_spec c s 0 (-1) ltac:(lia)) as [[Hr Hs] | [Hr Hs]].
  - rewrite Hr. exact Hs.
  - set (r := lastIndexOf_from c s 0 (-1)) in *.
    by replace (Z.to_nat (r + 1)) with (Z.to_nat (r - 0) + 1) by lia.
Qed.

Lemma trim_start_elem (x : N) (s : jsstring) : x ∈ trim_start s → x ∈ s.
Proof.
  induction s as [| c s IH]; [done |]. cbn [trim_start].
  destruct (is_trim_space c); [| done]. intros H. right. by apply IH.
Qed.

Lemma trim_elem (x : N) (s : jsstring) : x ∈ trim s → x ∈ s.
Proof.
  unfold trim. rewrite elem_of_reverse. intros H%trim_start_elem.
  rewrite elem_of_reverse in H. by apply trim_start_elem.
Qed.

Lemma trim_start_id (s : jsstring) :
  forallb (λ c, negb (is_trim_space c)) s = true → trim_start s = s.
Proof.
  destruct s as [| c s]; [reflexivity |]. cbn [forallb trim_start].
  intros [Hc _]%andb_true_iff. apply negb_true_iff in Hc. by rewrite Hc.
Qed.

Lemma trim_id (s : jsstring) :
  forallb (λ c, negb (is_trim_space c)) s = true → trim s = s.
Proof.
  intros Hs. unfold trim. rewrite (trim_start_id s Hs), trim_start_id.
  - apply reverse_involutive.
  - apply forallb_forall. intros x Hx. rewrite forallb_forall in Hs.
    apply Hs. apply list_elem_of_In. apply elem_of_reverse. by apply list_elem_of_In.
Qed.

(** X8: a line [prefix name: connection], where the name has no white space
    and no colon and the prefix has no colon, yields that name and the
    trimmed connection, whatever colons the connection holds; the record is
    the default one exactly when the name is the default name. *)
Theorem list_line_device (defaults prefix nm conn : jsstring) :
  chr ":" ∉ prefix →
  chr ":" ∉ nm →
  forallb (λ c, negb (is_trim_space c)) nm = true →
  one_line conn = true →
  conn ≠ [] →
  list_line defaults (prefix ++ chr " " :: nm ++ chr ":" :: conn)
  = Ok {| name := nm; connection := trim conn;
          isDefault := bool_decide (defaults = nm) |}.
Proof.
  intros Hp Hn Hws Hline Hne.
  assert (Hsp : chr " " ∉ nm).
  { intros Hin. rewrite forallb_forall in Hws.
    apply list_elem_of_In, Hws in Hin. discriminate Hin. }
  assert (Hlabel : chr ":" ∉ prefix ++ chr " " :: nm).
  { rewrite elem_of_app, elem_of_cons. intros [? | [? | ?]]; done. }
  replace (prefix ++ chr " " :: nm ++ chr ":" :: conn)
    with ((prefix ++ chr " " :: nm) ++ chr ":" :: conn)
    by (by rewrite <- app_assoc).
  destruct (list_line_at_colon defaults _ conn Hlabel) as [H0 H1].
  unfold list_line. rewrite H0, H1. cbn [defined]. rewrite bind_Ok.
  destruct conn as [| c conn]; [done |].
  pose proof Hline as [Hc _]%andb_true_iff. apply negb_true_iff in Hc.
  rewrite Hc, (split_colon_raw_group _ Hline). cbn [head defined]. rewrite bind_Ok.
  unfold lastIndexOf. rewrite (lastIndexOf_from_last _ _ _ _ _ Hsp).
  unfold substring.
  replace (Z.to_nat (0 + Z.of_nat (length prefix) + 1)) with (length (prefix ++ [chr " "]))
    by (rewrite length_app; cbn; lia).
  replace (prefix ++ chr " " :: nm) with ((prefix ++ [chr " "]) ++ nm)
    by (by rewrite <- app_assoc).
  by rewrite drop_app_length, (trim_id nm Hws).
Qed.

Lemma list_line_device_witness :
  list_line (js "HP_LaserJet")
    (js "device for" ++ chr " " :: js "HP_LaserJet" ++ chr ":" :: js " ipp://host:631/printers/HP_LaserJet")
  = Ok {| name := js "HP_LaserJet";
          connection := trim (js " ipp://host:631/printers/HP_LaserJet");
          isDefault := bool_decide (js "HP_LaserJet" = js "HP_LaserJet") |}.
Proof.
  apply (list_line_device (js "HP_LaserJet") (js "device for") (js "HP_LaserJet")
           (js " ipp://host:631/printers/HP_LaserJet")).
  - refine (bool_decide_unpack _ _). vm_compute. exact I.
  - refine (bool_decide_unpack _ _). vm_compute. exact I.
  - reflexivity.
  - reflexivity.
  - discriminate.
Defined.

(** ** The records of the printer listing *)

Lemma drop_elem (x : N) (n : nat) (s : jsstring) : x ∈ drop n s → x ∈ s.
Proof.
  revert n. induction s as [| c s IH]; intros [| n]; cbn [drop]; try done.
  intros H. right. by eapply IH.
Qed.

Lemma list_line_name (defaults line : jsstring) (item : PrinterItem) :
  list_line defaults line = Ok item →
  (chr " " ∉ name item) ∧ (chr ":" ∉ name item).
Proof.
  unfold list_line.
  destruct (at_index (split_colon line) 0) as [p0 |] eqn:H0; [| discriminate].
  cbn [defined]. rewrite bind_Ok.
  destruct (at_index (split_colon line) 1) as [p1 |]; [| discriminate].
  cbn [defined]. rewrite bind_Ok. intros [= <-]. cbn [name]. split.
  - intros Hin%trim_elem. by apply after_last_without in Hin.
  - intros Hin%trim_elem%drop_elem.
    destruct (decide (chr ":" ∈ line)) as [Hc | Hno].
    + apply list_elem_of_split_l in Hc as (label & rest & -> & Hl).
      destruct (list_line_at_colon defaults label rest Hl) as [E0 _].
      rewrite E0 in H0. by injection H0 as <-.
    + unfold split_colon in H0. rewrite split_colon_raw_no_colon in H0 by done.
      injection H0 as <-. done.
Qed.

Lemma mapM_Ok_Forall2 {A B} (f : A → result B) (xs : list A) : ∀ ys,
  mapM f xs = Ok ys → Forall2 (λ x y, f x = Ok y) xs ys.
Proof.
  induction xs as [| x xs IH]; intros ys.
  - intros [= <-]. constructor.
  - rewrite mapM_cons. destruct (f x) as [y |] eqn:Hx; [| discriminate].
    rewrite bind_Ok. destruct (mapM f xs) as [ys0 |]; [| discriminate].
    rewrite bind_Ok. intros [= <-]. constructor; [done | by apply IH].
Qed.

(** X9: when the listing command printed something and nothing on its error
    stream, a successful [_list] holds one record for each line that is not
    empty, the first line apart, and no name holds a space or a colon. *)
Theorem list_records_shape (stdout stderr : jsstring) (items : list PrinterItem) :
  truthy stderr = false →
  truthy stdout = true →
  _list (Resolved stdout stderr) = Ok items →
  length items = length (filter (λ l : jsstring, truthy l) (split_lines stdout)) - 1
  ∧ Forall (λ item, (chr " " ∉ name item) ∧ (chr ":" ∉ name item)) items.
Proof.
  intros Hs Ho. unfold _list. rewrite Hs, Ho. cbn [orb negb].
  destruct (filter _ (split_lines stdout)) as [| first rest]; [discriminate |].
  cbn [head tail defined length]. rewrite bind_Ok.
  replace (S (length rest) - 1) with (length rest) by lia.
  intros H%mapM_Ok_Forall2. split.
  - symmetry. by eapply Forall2_length.
  - induction H as [| line item rest items Hline _ IH]; constructor; [| exact IH].
    by eapply list_line_name.
Qed.

Lemma list_records_shape_witness :
  length [{| name := js "HP_LaserJet";
             connection := js "ipp://host/printers/HP_LaserJet";
             isDefault := true |}]
  = length (filter (λ l : jsstring, truthy l) (split_lines status_devices)) - 1
  ∧ Forall (λ item, (chr " " ∉ name item) ∧ (chr ":" ∉ name item))
      [{| name := js "HP_LaserJet";
          connection := js "ipp://host/printers/HP_LaserJet";
          isDefault := true |}].
Proof.
  apply (list_records_shape status_devices []); [reflexivity | reflexivity |].
  vm_compute. reflexivity.
Defined.

Lemma split_lines_step (c d : N) (s : jsstring) :
  split_lines (c :: d :: s)
  = if ((c =? 13) && (d =? 10))%N then [] :: split_lines s
    else if is_newline c then [] :: split_lines (d :: s)
    else cons_head c (split_lines (d :: s)).
Proof. reflexivity. Qed.

(** Only line separators: every piece of the split is empty. *)
Lemma split_lines_newlines (n : nat) : ∀ s : jsstring,
  length s ≤ n → forallb is_newline s = true →
  Forall (λ l, l = []) (split_lines s).
Proof.
  induction n as [| n IH]; intros s Hn Hs.
  - destruct s; [| cbn in Hn; lia]. by repeat constructor.
  - destruct s as [| c [| d s]]; [by repeat constructor | |].
    + cbn [forallb] in Hs. apply andb_true_iff in Hs as [Hc _].
      cbn [split_lines]. rewrite Hc. by repeat constructor.
    + cbn [forallb] in Hs. apply andb_true_iff in Hs as [Hc Hs].
      rewrite split_lines_step. destruct ((c =? 13)%N && (d =? 10)%N).
      * constructor; [done |]. apply andb_true_iff in Hs as [_ Hs].
        apply IH; [cbn in Hn |- *; lia | exact Hs].
      * rewrite Hc. constructor; [done |]. apply IH; [cbn in Hn |- *; lia | exact Hs].
Qed.

(** X10: an output made of line separators only is not empty, yet it has no
    first line: [_list] throws a type error, and so do [list] and [get]. *)
Theorem list_blank_output_throws (toLowerCase : jsstring → jsstring)
    (stdout : jsstring) (name0 : option jsstring) :
  truthy stdout = true →
  forallb is_newline stdout = true →
  _list (Resolved stdout []) = Throw TypeError
  ∧ list_ (Resolved stdout []) = Throw TypeError
  ∧ get toLowerCase name0 (Resolved stdout []) = Throw TypeError.
Proof.
  intros Ht Hs.
  assert (H : _list (Resolved stdout []) = Throw TypeError).
  { unfold _list. rewrite Ht. cbn [truthy orb negb].
    pose proof (split_lines_newlines _ _ (Nat.le_refl _) Hs) as Hall.
    replace (filter (λ l : jsstring, truthy l) (split_lines stdout)) with (@nil jsstring);
      [reflexivity |].
    symmetry. induction Hall as [| l ls -> _ IH]; [reflexivity |].
    rewrite filter_cons_False by (cbn; tauto). exact IH. }
  unfold list_, get. rewrite H. repeat split; reflexivity.
Qed.

Lemma list_blank_output_throws_witness :
  _list (Resolved (LF ++ LF) []) = Throw TypeError
  ∧ list_ (Resolved (LF ++ LF) []) = Throw TypeError
  ∧ get toLowerCase_ascii None (Resolved (LF ++ LF) []) = Throw TypeError.
Proof.
  apply (list_blank_output_throws toLowerCase_ascii (LF ++ LF) None); reflexivity.
Defined.

(** ** [get] *)

Lemma find_first {A} (f : A → bool) (xs : list A) :
  match find f xs with
  | Some x => ∃ before after, xs = before ++ x :: after ∧ f x = true
                              ∧ forallb (λ y, negb (f y)) before = true
  | None => forallb (λ y, negb (f y)) xs = true
  end.
Proof.
  induction xs as [| x xs IH]; [reflexivity |]. cbn [find].
  destruct (f x) eqn:Hx.
  - by exists [], xs.
  - destruct (find f xs) as [y |].
    + destruct IH as (before & after & -> & Hy & Hb).
      exists (x :: before), after. cbn [forallb]. by rewrite Hx, Hb.
    + cbn [forallb]. by rewrite Hx, IH.
Qed.

(** X11: [get] returns the first record of the listing, in its order, that
    passes the test: the given name, compared ignoring case, or the default
    flag when the name is omitted or empty; it returns [undefined] when no
    record passes. *)
Theorem get_first_match (toLowerCase : jsstring → jsstring) (name0 : option jsstring)
    (r : exec_outcome) (found : option Printer) :
  get toLowerCase name0 r = Ok found →
  ∃ items, _list r = Ok items
    ∧ match found with
      | Some printer =>
          ∃ before item after,
            items = before ++ item :: after
            ∧ printer = new_Printer item
            ∧ get_test toLowerCase name0 item = true
            ∧ forallb (λ y, negb (get_test toLowerCase name0 y)) before = true
      | None => forallb (λ y, negb (get_test toLowerCase name0 y)) items = true
      end.
Proof.
  unfold get. destruct (_list r) as [items |]; [| discriminate].
  rewrite bind_Ok. intros [= <-]. exists items. split; [reflexivity |].
  pose proof (find_first (get_test toLowerCase name0) items) as Hf.
  change (find _ items) with (find (get_test toLowerCase name0) items).
  destruct (find (get_test toLowerCase name0) items) as [item |]; cbn [option_map].
  - destruct Hf as (before & after & -> & Ht & Hb). by exists before, item, after.
  - exact Hf.
Qed.

Lemma get_first_match_witness :
  ∃ items, _list (Resolved status_devices []) = Ok items
    ∧ ∃ before item after,
        items = before ++ item :: after
        ∧ new_Printer {| name := js "HP_LaserJet";
                         connection := js "ipp://host/printers/HP_LaserJet";
                         isDefault := true |} = new_Printer item
        ∧ get_test toLowerCase_ascii (Some (js "hp_laserjet")) item = true
        ∧ forallb (λ y, negb (get_test toLowerCase_ascii (Some (js "hp_laserjet")) y))
            before = true.
Proof.
  apply (get_first_match toLowerCase_ascii (Some (js "hp_laserjet"))
           (Resolved status_devices [])
           (Some (new_Printer {| name := js "HP_LaserJet";
                                 connection := js "ipp://host/printers/HP_LaserJet";
                                 isDefault := true |}))).
  vm_compute. reflexivity.
Defined.

(** ** The driver catalog *)

Lemma split_absent (sep : N) (l : jsstring) : sep ∉ l → split sep l = [l].
Proof.
  induction l as [| c l IH]; [reflexivity |]. intros [Hc Hl]%not_elem_of_cons.
  cbn [split]. apply N.eqb_neq in Hc. rewrite N.eqb_sym in Hc. by rewrite Hc, (IH Hl).
Qed.

Lemma split_at_sep (sep : N) (l rest : jsstring) :
  sep ∉ l → split sep (l ++ sep :: rest) = l :: split sep rest.
Proof.
  induction l as [| c l IH]; cbn [app split].
  - by rewrite N.eqb_refl.
  - intros [Hc Hl]%not_elem_of_cons. apply N.eqb_neq in Hc.
    rewrite N.eqb_sym in Hc. by rewrite Hc, (IH Hl).
Qed.

(** The lines of a text whose lines all end with LF, and one empty string. *)
Lemma split_unlines (lines : list jsstring) :
  forallb (without 10%N) lines = true →
  split 10%N (unlines lines) = lines ++ [[]].
Proof.
  induction lines as [| l lines IH]; [reflexivity |]. cbn [forallb].
  intros [Hl Hs]%andb_true_iff. unfold unlines. cbn [map concat].
  rewrite <- app_assoc. change (LF ++ ?x) with (10%N :: x).
  rewrite split_at_sep by (by apply without_elem). fold (unlines lines).
  by rewrite (IH Hs).
Qed.

Lemma field_error (part : jsstring) (e : error) : field part = Throw e → e = TypeError.
Proof.
  unfold field. destruct (split (chr "=") part !! 1); cbn [defined]; [discriminate |].
  by intros [= <-].
Qed.

Lemma field_value (l v : jsstring) :
  chr "=" ∉ l → chr "=" ∉ v → field (l ++ chr "=" :: v) = Ok (trim v).
Proof.
  intros Hl Hv. unfold field.
  by rewrite (split_at_sep _ _ _ Hl), (split_absent _ _ Hv).
Qed.

Lemma field_no_equals (l : jsstring) : chr "=" ∉ l → field l = Throw TypeError.
Proof. intros Hl. unfold field. by rewrite (split_absent _ _ Hl). Qed.

(** X12: the value of a catalog line is the text between its first and its
    second [=], trimmed: what follows a second [=] is lost; a line without
    [=] throws. *)
Theorem field_between_equals (l v w : jsstring) :
  chr "=" ∉ l → chr "=" ∉ v →
  field (l ++ chr "=" :: v) = Ok (trim v)
  ∧ field (l ++ chr "=" :: v ++ chr "=" :: w) = Ok (trim v)
  ∧ field l = Throw TypeError.
Proof.
  intros Hl Hv. split; [by apply field_value |]. split; [| by apply field_no_equals].
  unfold field. by rewrite (split_at_sep _ _ _ Hl), (split_at_sep _ _ _ Hv).
Qed.

Lemma field_between_equals_witness :
  field (js "  make-and-model " ++ chr "=" :: js " Brother HL-5270DN series")
  = Ok (trim (js " Brother HL-5270DN series"))
  ∧ field (js "  make-and-model " ++ chr "=" :: js " Brother HL-5270DN series"
           ++ chr "=" :: js "x")
    = Ok (trim (js " Brother HL-5270DN series"))
  ∧ field (js "  make-and-model ") = Throw TypeError.
Proof.
  apply (field_between_equals (js "  make-and-model ") (js " Brother HL-5270DN series")
           (js "x"));
    refine (bool_decide_unpack _ _); vm_compute; exact I.
Defined.

Lemma field_clean (l v : jsstring) :
  clean_label l = true → clean_value v = true → field (l ++ chr "=" :: v) = Ok v.
Proof.
  intros [Hl _]%andb_true_iff [Ht [Hv _]%andb_true_iff]%andb_true_iff.
  apply without_elem in Hl, Hv. apply bool_decide_eq_true in Ht.
  by rewrite (field_value l v Hl Hv), Ht.
Qed.

Lemma read_drivers_render (l0 l1 l2 l3 : jsstring) (ds : list DriverRecord) :
  clean_label l0 && clean_label l1 && clean_label l2 && clean_label l3 = true →
  forallb clean_driver ds = true →
  read_drivers (concat (map (render_driver l0 l1 l2 l3) ds) ++ [[]]) = Ok ds.
Proof.
  intros [[[H0 H1]%andb_true_iff H2]%andb_true_iff H3]%andb_true_iff.
  induction ds as [| d ds IH]; [reflexivity |]. cbn [forallb].
  intros [[[[Hd Hl]%andb_true_iff Hm]%andb_true_iff Hi]%andb_true_iff Hds]%andb_true_iff.
  cbn [map concat render_driver app].
  destruct (concat (map (render_driver l0 l1 l2 l3) ds) ++ [[]]) as [| p4 lines] eqn:E.
  { by destruct (concat (map (render_driver l0 l1 l2 l3) ds)). }
  rewrite read_drivers_step, !field_clean, !bind_Ok, (IH Hds) by done.
  rewrite bind_Ok. by destruct d.
Qed.

Lemma render_lines_clean (l0 l1 l2 l3 : jsstring) (ds : list DriverRecord) :
  clean_label l0 && clean_label l1 && clean_label l2 && clean_label l3 = true →
  forallb clean_driver ds = true →
  forallb (without 10%N) (concat (map (render_driver l0 l1 l2 l3) ds)) = true.
Proof.
  intros [[[H0 H1]%andb_true_iff H2]%andb_true_iff H3]%andb_true_iff.
  assert (Hline : ∀ l v, clean_label l = true → clean_value v = true →
            without 10%N (l ++ chr "=" :: v) = true).
  { intros l v [_ Hl]%andb_true_iff [_ [_ Hv]%andb_true_iff]%andb_true_iff.
    apply without_app; [exact Hl |]. by rewrite without_cons, Hv. }
  induction ds as [| d ds IH]; [reflexivity |]. cbn [forallb].
  intros [[[[Hd Hl]%andb_true_iff Hm]%andb_true_iff Hi]%andb_true_iff Hds]%andb_true_iff.
  cbn [map concat render_driver app forallb].
  by rewrite !Hline, (IH Hds).
Qed.

(** X13: a catalog written four lines a driver, every line ended by LF, with
    values that are trimmed and hold no [=] and no LF, is read back whole:
    [findDrivers] without slugs returns the same drivers, in the same
    order. *)
Theorem findDrivers_reads_catalog
    (fuzzy_filter : jsstring → list (nat * DriverRecord) → list (nat * DriverRecord))
    (l0 l1 l2 l3 stderr : jsstring) (ds : list DriverRecord) (maxsize : option nat) :
  clean_label l0 && clean_label l1 && clean_label l2 && clean_label l3 = true →
  forallb clean_driver ds = true →
  findDrivers fuzzy_filter NoSlugs maxsize
    (Resolved (unlines (concat (map (render_driver l0 l1 l2 l3) ds))) stderr)
  = Ok (map Driver (objects ds)).
Proof.
  intros Hl Hds. unfold findDrivers.
  rewrite split_unlines by (by apply render_lines_clean).
  by rewrite (read_drivers_render _ _ _ _ _ Hl Hds).
Qed.

Lemma findDrivers_reads_catalog_witness :
  findDrivers fuzzy_originals NoSlugs None
    (Resolved (unlines (concat (map (render_driver (js "Model:  name ")
                 (js "        natural_language ") (js "        make-and-model ")
                 (js "        device-id ")) [brother; brother]))) [])
  = Ok (map Driver (objects [brother; brother])).
Proof.
  apply (findDrivers_reads_catalog fuzzy_originals (js "Model:  name ")
           (js "        natural_language ") (js "        make-and-model ")
           (js "        device-id ") [] [brother; brother] None);
    vm_compute; reflexivity.
Defined.

(** ** Groups of four lines *)





(** A line without [=] in a group that the loop reads makes it throw. *)
Lemma read_drivers_bad_line (n : nat) : ∀ (lines : list jsstring) (i : nat) (bad : jsstring),
  length lines ≤ n →
  lines !! i = Some bad → chr "=" ∉ bad →
  i < 4 * ((length lines - 1) / 4) →
  read_drivers lines = Throw TypeError.
Proof.
  induction n as [| n IH]; intros lines i bad Hn Hi Hbad Hlt.
  - destruct lines; [done | cbn in Hn; lia].
  - destruct lines as [| p0 [| p1 [| p2 [| p3 [| p4 lines']]]]];
      try (cbn in Hlt; lia).
    rewrite read_drivers_step.
    pose proof (field_no_equals bad Hbad) as Hf.
    assert (Hrest : 4 ≤ i → read_drivers (p4 :: lines') = Throw TypeError).
    { intros Hge. apply (IH _ (i - 4) bad); [cbn in Hn |- *; lia | | done |].
      - destruct i as [| [| [| [| i]]]]; try lia. cbn in Hi |- *.
        by replace (i - 0) with i by lia.
      - cbn [length] in *.
        replace (S (S (S (S (S (length lines'))))) - 1)
          with (S (length lines') - 1 + 1 * 4) in Hlt by lia.
        rewrite Nat.div_add in Hlt by lia. lia. }
    destruct (field p0) as [v0 | e0] eqn:E0;
      [rewrite bind_Ok | by rewrite (field_error _ _ E0)].
    destruct (field p1) as [v1 | e1] eqn:E1;
      [rewrite bind_Ok | by rewrite (field_error _ _ E1)].
    destruct (field p2) as [v2 | e2] eqn:E2;
      [rewrite bind_Ok | by rewrite (field_error _ _ E2)].
    destruct (field p3) as [v3 | e3] eqn:E3;
      [rewrite bind_Ok | by rewrite (field_error _ _ E3)].
    destruct i as [| [| [| [| i]]]]; cbn in Hi; try (injection Hi as ->; congruence).
    by rewrite Hrest by lia.
Qed.

(** X14: a line without [=] among the lines that the catalog loop reads (the
    complete groups of four that another line follows) makes [findDrivers]
    throw a type error, with or without slugs. *)
Theorem findDrivers_bad_line_throws
    (fuzzy_filter : jsstring → list (nat * DriverRecord) → list (nat * DriverRecord))
    (slugs : slugs_arg) (maxsize : option nat) (stdout stderr : jsstring)
    (i : nat) (bad : jsstring) :
  split 10%N stdout !! i = Some bad →
  chr "=" ∉ bad →
  i < 4 * ((length (split 10%N stdout) - 1) / 4) →
  findDrivers fuzzy_filter slugs maxsize (Resolved stdout stderr) = Throw TypeError.
Proof.
  intros Hi Hbad Hlt. unfold findDrivers.
  by rewrite (read_drivers_bad_line _ _ _ _ (Nat.le_refl _) Hi Hbad Hlt).
Qed.

Lemma findDrivers_bad_line_throws_witness :
  findDrivers fuzzy_originals NoSlugs None
    (Resolved (js "name=a" ++ LF ++ js "lang" ++ LF ++ js "model=c" ++ LF ++ js "id=d" ++ LF) [])
  = Throw TypeError.
Proof.
  apply (findDrivers_bad_line_throws fuzzy_originals NoSlugs None
           (js "name=a" ++ LF ++ js "lang" ++ LF ++ js "model=c" ++ LF ++ js "id=d" ++ LF)
           [] 1 (js "lang")).
  - reflexivity.
  - refine (bool_decide_unpack _ _). vm_compute. exact I.
  - vm_compute. lia.
Defined.

(** ** Driver matching *)

Section Matching.

Variable fuzzy_filter : jsstring → list (nat * DriverRecord) → list (nat * DriverRecord).

Lemma slug_loop_first_hit drivers tokens j : ∀ index,
  1 ≤ j → j ≤ index →
  forallb (λ i, match fuzzy_filter (window tokens i) drivers with
                | [] => true
                | _ :: _ => false
                end) (seq (S j) (index - j)) = true →
  fuzzy_filter (window tokens j) drivers ≠ [] →
  slug_loop fuzzy_filter drivers tokens index
  = (windows_down tokens index j, Some (fuzzy_filter (window tokens j) drivers)).
Proof.
  intros index Hj Hle Hno Hhit. induction index as [| index IH]; [lia |].
  cbn [slug_loop]. fold (window tokens (S index)).
  destruct (decide (j = S index)) as [-> | Hne].
  - destruct (fuzzy_filter (window tokens (S index)) drivers) eqn:E; [done |].
    unfold windows_down. by replace (S (S index) - S index) with 1 by lia.
  - rewrite forallb_forall in Hno.
    assert (E : fuzzy_filter (window tokens (S index)) drivers = []).
    { specialize (Hno (S index)). rewrite in_seq in Hno.
      destruct (fuzzy_filter (window tokens (S index)) drivers); [done |].
      discriminate Hno. lia. }
    rewrite E, IH; [| lia |].
    + unfold windows_down. replace (S (S index) - j) with (S (S index - j)) by lia.
      rewrite seq_S, reverse_snoc. cbn [map].
      by replace (j + (S index - j)) with (S index) by lia.
    + apply forallb_forall. intros i Hi. apply Hno. rewrite in_seq in Hi |- *. lia.
Qed.

Lemma slug_loop_value drivers tokens : ∀ index hits,
  snd (slug_loop fuzzy_filter drivers tokens index) = Some hits →
  ∃ i, 1 ≤ i ∧ i ≤ index ∧ hits = fuzzy_filter (window tokens i) drivers.
Proof.
  induction index as [| index IH]; intros hits; [discriminate |].
  cbn [slug_loop]. fold (window tokens (S index)).
  destruct (fuzzy_filter (window tokens (S index)) drivers) as [| h hs] eqn:E.
  - destruct (slug_loop fuzzy_filter drivers tokens index) as [log value] eqn:El.
    cbn [snd] in *. intros Hv. destruct (IH _ Hv) as (i & H1 & H2 & ->).
    exists i. repeat split; [done | lia].
  - cbn [snd]. intros [= <-]. exists (S index). repeat split; [lia | lia | done].
Qed.

End Matching.

(** X15: for one slug, the patterns are tried from all the tokens down, one
    token less each time; the first pattern with a hit ends the loop, and
    the value of the slug is the hit list of that pattern alone. *)
Theorem match_slug_first_hit
    (fuzzy_filter : jsstring → list (nat * DriverRecord) → list (nat * DriverRecord))
    (drivers : list (nat * DriverRecord)) (slug : jsstring) (j : nat) :
  1 ≤ j →
  j ≤ length (split (chr " ") slug) →
  forallb (λ i, match fuzzy_filter (window (split (chr " ") slug) i) drivers with
                | [] => true
                | _ :: _ => false
                end) (seq (S j) (length (split (chr " ") slug) - j)) = true →
  fuzzy_filter (window (split (chr " ") slug) j) drivers ≠ [] →
  match_slug fuzzy_filter drivers slug
  = (windows_down (split (chr " ") slug) (length (split (chr " ") slug)) j,
     Some (fuzzy_filter (window (split (chr " ") slug) j) drivers)).
Proof. intros. unfold match_slug. by apply slug_loop_first_hit. Qed.

Lemma match_slug_first_hit_witness :
  match_slug fuzzy_originals [(0, brother)] (js "Brother zzz qqq")
  = (windows_down (split (chr " ") (js "Brother zzz qqq"))
       (length (split (chr " ") (js "Brother zzz qqq"))) 1,
     Some (fuzzy_originals (window (split (chr " ") (js "Brother zzz qqq")) 1)
             [(0, brother)])).
Proof.
  apply (match_slug_first_hit fuzzy_originals [(0, brother)] (js "Brother zzz qqq") 1).
  - lia.
  - vm_compute. lia.
  - reflexivity.
  - vm_compute. discriminate.
Defined.

Lemma same_value_identity (a b : jsval) :
  same_value a b = bool_decide (identity a = identity b).
Proof.
  destruct a as [| x], b as [| y]; cbn [same_value identity].
  - by rewrite bool_decide_eq_true_2.
  - by rewrite bool_decide_eq_false_2.
  - by rewrite bool_decide_eq_false_2.
  - apply bool_decide_ext. split; [by intros -> | by intros [= ->]].
Qed.

Lemma existsb_same_value (v : jsval) (seen : list jsval) :
  existsb (same_value v) seen = true ↔ identity v ∈ identity <$> seen.
Proof.
  rewrite existsb_exists, list_elem_of_fmap. split.
  - intros (x & Hx & Hs). rewrite same_value_identity in Hs.
    apply bool_decide_eq_true in Hs. exists x. split; [done | by apply list_elem_of_In].
  - intros (x & Hs & Hx). exists x. split; [by apply list_elem_of_In |].
    rewrite same_value_identity. by apply bool_decide_eq_true.
Qed.

(** [_.union] keeps values of the array, none already seen, none twice. *)
Lemma union_seen_spec (array : list jsval) : ∀ seen,
  NoDup (identity <$> union_seen seen array)
  ∧ ∀ v, v ∈ union_seen seen array → (identity v ∉ identity <$> seen) ∧ v ∈ array.
Proof.
  induction array as [| v array IH]; intros seen; cbn [union_seen].
  - split; [constructor | intros v Hv; inversion Hv].
  - destruct (existsb (same_value v) seen) eqn:Hseen.
    + destruct (IH seen) as [Hnd Hin]. split; [exact Hnd |].
      intros v' Hv'. destruct (Hin v' Hv'). split; [done | by right].
    + destruct (IH (seen ++ [v])) as [Hnd Hin]. split.
      * cbn [fmap list_fmap]. apply NoDup_cons. split; [| exact Hnd].
        intros (v' & Hid & Hv')%list_elem_of_fmap.
        destruct (Hin v' Hv') as [Hnot _]. apply Hnot.
        rewrite fmap_app, elem_of_app. right. rewrite <- Hid. by left.
      * intros v' [-> | Hv']%elem_of_cons.
        -- split; [| by left]. intros Hc%existsb_same_value. congruence.
        -- destruct (Hin v' Hv') as [Hnot Harr]. split; [| by right].
           intros Hc. apply Hnot. rewrite fmap_app, elem_of_app. by left.
Qed.

Lemma slice0_nat (array : list jsval) (maxsize : nat) :
  slice0 array (Z.of_nat maxsize) = take maxsize array.
Proof.
  unfold slice0.
  destruct (Z.ltb_spec (Z.of_nat (length array)) (Z.of_nat maxsize)).
  - destruct (Z.ltb_spec (Z.of_nat (length array)) 0); [lia |].
    rewrite Nat2Z.id. rewrite !take_ge by lia. reflexivity.
  - destruct (Z.ltb_spec (Z.of_nat maxsize) 0); [lia |]. by rewrite Nat2Z.id.
Qed.

Lemma find_by_slugs_take
    (fuzzy_filter : jsstring → list (nat * DriverRecord) → list (nat * DriverRecord))
    drivers slugs maxsize :
  find_by_slugs fuzzy_filter drivers slugs maxsize
  = take maxsize
      (union (flatten (map (λ slug, snd (match_slug fuzzy_filter drivers slug)) slugs))).
Proof.
  unfold find_by_slugs. destruct (map _ slugs) eqn:E.
  - by destruct maxsize.
  - apply slice0_nat.
Qed.

(** X16: when slugs are supplied, no two elements of the result of
    [findDrivers] are the same driver object, and [undefined] occurs at most
    once. *)
Theorem findDrivers_distinct
    (fuzzy_filter : jsstring → list (nat * DriverRecord) → list (nat * DriverRecord))
    (slugs : slugs_arg) (maxsize : option nat) (r : exec_outcome) (found : list jsval) :
  supplied slugs = true →
  findDrivers fuzzy_filter slugs maxsize r = Ok found →
  NoDup (identity <$> found).
Proof.
  intros Hs. unfold findDrivers. destruct r as [| stdout stderr]; [discriminate |].
  destruct (read_drivers (split 10%N stdout)) as [drivers |]; [| discriminate].
  rewrite bind_Ok, Hs. cbn [negb]. intros [= <-].
  rewrite find_by_slugs_take, fmap_take.
  eapply sublist_NoDup; [| apply sublist_take]. apply union_seen_spec.
Qed.

Lemma findDrivers_distinct_witness :
  NoDup (identity <$> [Undefined; Driver (0, brother)]).
Proof.
  apply (findDrivers_distinct fuzzy_originals
           (Slugs [js "zzz"; js "brother"; js "qqq"; js "Brother HL"]) None
           (Resolved catalog_brother [])); [reflexivity |].
  vm_compute. reflexivity.
Defined.

(** X17: when slugs are supplied, every driver in the result of
    [findDrivers] is a hit of the matcher for the first tokens of one of the
    slugs, against the catalog read from the output. *)
Theorem findDrivers_only_hits
    (fuzzy_filter : jsstring → list (nat * DriverRecord) → list (nat * DriverRecord))
    (slugs : slugs_arg) (maxsize : option nat) (stdout stderr : jsstring)
    (found : list jsval) (obj : nat * DriverRecord) :
  supplied slugs = true →
  findDrivers fuzzy_filter slugs maxsize (Resolved stdout stderr) = Ok found →
  Driver obj ∈ found →
  ∃ drivers slug i,
    read_drivers (split 10%N stdout) = Ok drivers
    ∧ slug ∈ arrify slugs
    ∧ 1 ≤ i ∧ i ≤ length (split (chr " ") slug)
    ∧ obj ∈ fuzzy_filter (window (split (chr " ") slug) i) (objects drivers).
Proof.
  intros Hs. unfold findDrivers.
  destruct (read_drivers (split 10%N stdout)) as [drivers |]; [| discriminate].
  rewrite bind_Ok, Hs. cbn [negb]. intros [= <-].
  rewrite find_by_slugs_take. intros Hin.
  apply elem_of_sublist with (l2 := union (flatten (map (λ slug,
    snd (match_slug fuzzy_filter (objects drivers) slug)) (arrify slugs)))) in Hin;
    [| apply sublist_take].
  destruct (union_seen_spec (flatten (map (λ slug,
    snd (match_slug fuzzy_filter (objects drivers) slug)) (arrify slugs))) []) as [_ Hu].
  apply Hu in Hin as [_ Hin]. unfold flatten in Hin.
  apply list_elem_of_bind in Hin as (item & Hobj & Hitem).
  apply list_elem_of_In, in_map_iff in Hitem as (slug & <- & Hslug%list_elem_of_In).
  destruct (snd (match_slug fuzzy_filter (objects drivers) slug)) as [hits |] eqn:Hv.
  2: { apply list_elem_of_singleton in Hobj. discriminate. }
  apply list_elem_of_In, in_map_iff in Hobj as (o & [= ->] & Ho%list_elem_of_In).
  unfold match_slug in Hv. apply slug_loop_value in Hv as (i & H1 & H2 & ->).
  by exists drivers, slug, i.
Qed.

Lemma findDrivers_only_hits_witness :
  ∃ drivers slug i,
    read_drivers (split 10%N catalog_brother) = Ok drivers
    ∧ slug ∈ arrify (Slugs [js "zzz"; js "Brother zzz"])
    ∧ 1 ≤ i ∧ i ≤ length (split (chr " ") slug)
    ∧ (0, brother) ∈ fuzzy_originals (window (split (chr " ") slug) i) (objects drivers).
Proof.
  apply (findDrivers_only_hits fuzzy_originals (Slugs [js "zzz"; js "Brother zzz"]) None
           catalog_brother [] [Undefined; Driver (0, brother)] (0, brother)).
  - reflexivity.
  - vm_compute. reflexivity.
  - apply list_elem_of_further, list_elem_of_here.
Defined.

(** X18: a larger [maxsize] only adds elements at the end: the result for a
    smaller cap is the beginning of the result for a larger one. *)
Theorem findDrivers_cap_prefix
    (fuzzy_filter : jsstring → list (nat * DriverRecord) → list (nat * DriverRecord))
    (slugs : slugs_arg) (small large : nat) (r : exec_outcome) :
  supplied slugs = true →
  small ≤ large →
  findDrivers fuzzy_filter slugs (Some small) r
  = (take small <$> findDrivers fuzzy_filter slugs (Some large) r).
Proof.
  intros Hs Hle. unfold findDrivers. destruct r as [| stdout stderr]; [reflexivity |].
  destruct (read_drivers (split 10%N stdout)) as [drivers |]; [| reflexivity].
  rewrite !bind_Ok, Hs. cbn [negb default from_option id fmap result_fmap].
  rewrite !find_by_slugs_take. unfold Datatypes.id. rewrite take_take.
  by replace (small `min` large) with small by lia.
Qed.

Lemma findDrivers_cap_prefix_witness :
  findDrivers fuzzy_originals (Slugs [js "zzz"; js "brother"]) (Some 1)
    (Resolved catalog_brother [])
  = (take 1 <$> findDrivers fuzzy_originals (Slugs [js "zzz"; js "brother"]) (Some 2)
                  (Resolved catalog_brother [])).
Proof.
  apply (findDrivers_cap_prefix fuzzy_originals (Slugs [js "zzz"; js "brother"]) 1 2
           (Resolved catalog_brother [])); [reflexivity | lia].
Defined.
